(** * five-words: letter-set encoding, pivot partitioning and the pruned
    five-word search of [fiveletterwords.cpp], as a shallow embedding.

    The whole program is the body of [main].  Its three stages are embedded
    in the order of the source:

    - the filter loop (lines 99-136), which encodes every word of length
      five as a 32-bit letter bitmap and files it under the first pivot
      letter that occurs in it;
    - the combine loop (lines 138-165), which flattens the per-letter lists
      into [word_bitmaps] / [unique_words] and records the boundaries;
    - the search (lines 171-234).

    Conventions.  A [uint32_t] bitmap is a [Z]; every bit the program can
    set without leaving defined behaviour lies below bit 31, so neither the
    [int] accumulator of [std::accumulate] nor the [uint32_t] parameter of
    its lambda ever wraps ([bitmap_of_range] below).  A shift [1 << s] on
    the 32-bit [int] 1 is defined for [0 <= s < 31] only; outside that
    window the embedding returns [None].  Bytes above 127 give either a
    negative amount (signed [char]) or one of at least 31 (unsigned
    [char]), so they fall outside the window on every platform.  Sizes and
    indices ([size_t]) are [nat]; the sum of line 138, accumulated in an
    [int], is taken without overflow.  The [omp parallel for] is embedded in
    its sequential order: the private scratch vectors are cleared for every
    pair and the only shared write is the guarded [push_back]. *)

From Stdlib Require Import ZArith List String Ascii Bool Lia Arith.
From Stdlib Require Import Permutation Sorted.
Import ListNotations.

Local Open Scope nat_scope.

(** ** Letter-set encoding (lines 100-118) *)

Definition WORD_LENGTH : nat := 5.

Definition char_code (c : ascii) : Z := Z.of_N (N_of_ascii c).

(** [c - 'a'], an [int]. *)
Definition shift_amount (c : ascii) : Z := (char_code c - char_code "a"%char)%Z.

(** [1 << s] on [int]; [None] where C++ leaves the shift undefined. *)
Definition shl_one (s : Z) : option Z :=
  if ((0 <=? s) && (s <? 31))%Z then Some (Z.shiftl 1 s) else None.

(** [std::accumulate(word.begin(), word.end(), bitmap,
      [](uint32_t bitmap, const char c) { return bitmap |= 1 << (c - 'a'); })] *)
Fixpoint accumulate_bitmap (word : string) (bitmap : Z) : option Z :=
  match word with
  | EmptyString => Some bitmap
  | String c rest =>
      match shl_one (shift_amount c) with
      | Some bit => accumulate_bitmap rest (Z.lor bitmap bit)
      | None => None
      end
  end.

Definition bitmap_of (word : string) : option Z := accumulate_bitmap word 0%Z.

(** The shift amounts the encoding step evaluates for one input word: none
    when the length test of line 100 skips the word, [c - 'a'] for each of
    its characters otherwise.  There is no other test before the shift. *)
Fixpoint char_shifts (word : string) : list Z :=
  match word with
  | EmptyString => []
  | String c rest => shift_amount c :: char_shifts rest
  end.

Definition shifts_used (word : string) : list Z :=
  if String.length word =? WORD_LENGTH then char_shifts word else [].

(** [std::bitset<32>(bitmap).count()] *)
Definition popcount (x : Z) : nat :=
  List.length (filter (fun i => Z.testbit x (Z.of_nat i)) (seq 0 32)).

(** ** Pivot letters (lines 87-93) *)

Definition letters : list ascii :=
  ["e"; "t"; "a"; "o"; "i"; "n"; "s"; "h"; "r"; "l"; "d"; "u"]%char.

(** [letter_bitmaps] as the filter loop sees it: one bit per pivot letter,
    then [0xffff]. *)
Definition letter_bitmaps : list Z :=
  map (fun letter => Z.shiftl 1 (shift_amount letter)) letters ++ [65535%Z].

(** [letter_bitmaps] as the search sees it, after line 165 has overwritten
    the last entry with 0. *)
Definition letter_bitmaps_search : list Z :=
  firstn (List.length letter_bitmaps - 1) letter_bitmaps ++ [0%Z].

(** ** The filter loop (lines 94-136) *)

Record Buckets := mkBuckets {
    word_bitmaps_letters : list (list Z);
    unique_words_letters : list (list string)
  }.

(** [v[i].push_back(x)] on a vector of vectors. *)
Fixpoint push_at {A} (i : nat) (x : A) (v : list (list A)) : list (list A) :=
  match v, i with
  | [], _ => []
  | l :: v', O => (l ++ [x]) :: v'
  | l :: v', S i' => l :: push_at i' x v'
  end.

Definition initial_buckets : Buckets :=
  mkBuckets (repeat [] (List.length letter_bitmaps))
            (repeat [] (List.length letter_bitmaps)).

(** [std::find(v.begin(), v.end(), bitmap) != v.end()] *)
Definition seen (bitmap : Z) (v : list Z) : bool := existsb (Z.eqb bitmap) v.

(** The inner loop of lines 122-134, from index [i] on; [lbs] is what is
    left of [letter_bitmaps] from that index.  It stops at the first
    intersecting entry ([break]), whether or not the word is stored. *)
Fixpoint place (lbs : list Z) (i : nat) (bitmap : Z) (word : string)
         (st : Buckets) : Buckets :=
  match lbs with
  | [] => st
  | lb :: lbs' =>
      if negb (Z.land bitmap lb =? 0)%Z then
        if negb (seen bitmap (nth i (word_bitmaps_letters st) [])) then
          mkBuckets (push_at i bitmap (word_bitmaps_letters st))
                    (push_at i word (unique_words_letters st))
        else st
      else place lbs' (S i) bitmap word st
  end.

(** One iteration of the loop over [word_list]. *)
Definition filter_word (st : Buckets) (word : string) : option Buckets :=
  if negb (String.length word =? WORD_LENGTH) then Some st
  else
    match bitmap_of word with
    | None => None
    | Some bitmap =>
        if popcount bitmap =? WORD_LENGTH
        then Some (place letter_bitmaps 0 bitmap word st)
        else Some st
    end.

Fixpoint filter_words (word_list : list string) (st : Buckets) : option Buckets :=
  match word_list with
  | [] => Some st
  | word :: rest =>
      match filter_word st word with
      | Some st' => filter_words rest st'
      | None => None
      end
  end.

(** ** The combine loop (lines 138-165) *)

Record SearchIndex := mkSearchIndex {
    number_of_words : nat;
    word_bitmaps : list Z;
    unique_words : list string;
    word_bitmaps_boundaries : list nat
  }.

(** [for (lo <= k < hi) s = body(k, s)] *)
Definition for_loop {S : Type} (lo hi : nat) (body : nat -> S -> S) (s : S) : S :=
  fold_left (fun s k => body k s) (seq lo (hi - lo)) s.

Definition combine (b : Buckets) : SearchIndex :=
  let n := fold_left (fun sum vec => sum + List.length vec)
                     (word_bitmaps_letters b) 0 in
  let '(wb, uw, bounds) :=
    for_loop 0 (List.length (word_bitmaps_letters b))
      (fun i '(wb, uw, bounds) =>
         (wb ++ nth i (word_bitmaps_letters b) [],
          uw ++ nth i (unique_words_letters b) [],
          bounds ++ [List.length wb]))
      ([], [], []) in
  mkSearchIndex n wb uw (bounds ++ [List.length wb]).

(** Filter and partition: the search index of a word list, when every
    shift of the encoding is defined. *)
Definition build_index (word_list : list string) : option SearchIndex :=
  match filter_words word_list initial_buckets with
  | Some b => Some (combine b)
  | None => None
  end.

(** ** The search (lines 171-234) *)

Section Search.

Variable idx : SearchIndex.

(** What is pushed for the five indices: the source pushes the five
    words; the index form is kept for the statements about indices. *)
Context {M : Type} (emit : nat -> nat -> nat -> nat -> nat -> M).

Definition bitmap_at (k : nat) : Z := nth k (word_bitmaps idx) 0%Z.

(** Lines 188-204: [candidate_bitmaps] and [candidate_indices]. *)
Definition candidates (j : nat) (used_ij : Z) : list Z * list nat :=
  for_loop 0 (List.length (word_bitmaps_boundaries idx) - 1)
    (fun index cand =>
       if (Z.land (nth index letter_bitmaps_search 0%Z) used_ij =? 0)%Z then
         for_loop (Nat.max (j + 1) (nth index (word_bitmaps_boundaries idx) 0))
                  (nth (index + 1) (word_bitmaps_boundaries idx) 0)
           (fun k cand =>
              if (Z.land used_ij (bitmap_at k) =? 0)%Z
              then (fst cand ++ [bitmap_at k], snd cand ++ [k])
              else cand)
           cand
       else cand)
    ([], []).

(** Lines 206-232. *)
Definition triples (i j : nat) (used_ij : Z)
           (candidate_bitmaps : list Z) (candidate_indices : list nat)
           (matches : list M) : list M :=
  let num_candidates := List.length candidate_bitmaps in
  if num_candidates <? WORD_LENGTH - 2 then matches
  else
    for_loop 0 num_candidates
      (fun a matches =>
         let a_bitmap := nth a candidate_bitmaps 0%Z in
         let used_ijk := Z.lor used_ij a_bitmap in
         for_loop (a + 1) num_candidates
           (fun b matches =>
              let b_bitmap := nth b candidate_bitmaps 0%Z in
              if negb (Z.land used_ijk b_bitmap =? 0)%Z then matches
              else
                let used_ijkl := Z.lor used_ijk b_bitmap in
                for_loop (b + 1) num_candidates
                  (fun c matches =>
                     let c_bitmap := nth c candidate_bitmaps 0%Z in
                     if negb (Z.land used_ijkl c_bitmap =? 0)%Z then matches
                     else matches ++
                            [emit i j (nth a candidate_indices 0)
                                  (nth b candidate_indices 0)
                                  (nth c candidate_indices 0)])
                  matches)
           matches)
      matches.

(** Lines 178-234. *)
Definition search_with : list M :=
  for_loop 0 (number_of_words idx)
    (fun i matches =>
       let used_i := bitmap_at i in
       for_loop (i + 1) (number_of_words idx)
         (fun j matches =>
            if negb (Z.land used_i (bitmap_at j) =? 0)%Z then matches
            else
              let used_ij := Z.lor used_i (bitmap_at j) in
              let cand := candidates j used_ij in
              triples i j used_ij (fst cand) (snd cand) matches)
         matches)
    [].

End Search.

Definition word_at (idx : SearchIndex) (k : nat) : string :=
  nth k (unique_words idx) EmptyString.

(** The matches as the program collects them: five words each. *)
Definition search (idx : SearchIndex) : list (list string) :=
  search_with idx
    (fun i j ka kb kc =>
       [word_at idx i; word_at idx j; word_at idx ka; word_at idx kb; word_at idx kc]).

(** The same run, recording the five indices instead of the words. *)
Definition search_indices (idx : SearchIndex) : list (list nat) :=
  search_with idx (fun i j ka kb kc => [i; j; ka; kb; kc]).

(** The whole pipeline on a word list. *)
Definition five_words (word_list : list string) : option (list (list string)) :=
  match build_index word_list with
  | Some idx => Some (search idx)
  | None => None
  end.

(** ** Brute force, from the specification's words

    "a brute-force scan over all index 5-tuples i<j<a<b<c that keeps
    exactly those with pairwise disjoint masks". *)

Fixpoint pairwise_disjointb (ms : list Z) : bool :=
  match ms with
  | [] => true
  | m :: ms' => forallb (fun m' => (Z.land m m' =? 0)%Z) ms' && pairwise_disjointb ms'
  end.

Definition above (k n : nat) : list nat := seq (k + 1) (n - (k + 1)).

Definition brute_force (masks : list Z) : list (list nat) :=
  let n := List.length masks in
  flat_map (fun i =>
  flat_map (fun j =>
  flat_map (fun a =>
  flat_map (fun b =>
  flat_map (fun c =>
    if pairwise_disjointb (map (fun k => nth k masks 0%Z) [i; j; a; b; c])
    then [[i; j; a; b; c]] else [])
  (above b n)) (above a n)) (above j n)) (above i n)) (seq 0 n).

(** ** The search loops as list comprehensions

    Every loop of the search only appends, so each is a [flat_map] over its
    index range; [search_with_eq] below proves the two forms equal. *)

Definition candidate_list (idx : SearchIndex) (j : nat) (used_ij : Z) : list nat :=
  flat_map
    (fun index =>
       if (Z.land (nth index letter_bitmaps_search 0%Z) used_ij =? 0)%Z then
         filter (fun k => (Z.land used_ij (bitmap_at idx k) =? 0)%Z)
                (seq (Nat.max (j + 1) (nth index (word_bitmaps_boundaries idx) 0))
                     (nth (index + 1) (word_bitmaps_boundaries idx) 0
                      - Nat.max (j + 1) (nth index (word_bitmaps_boundaries idx) 0)))
       else [])
    (seq 0 (List.length (word_bitmaps_boundaries idx) - 1)).

Section Comprehension.

Context {M : Type}.

(** The loop over [c] for fixed [a] and [b]. *)
Definition triple_c (emit3 : nat -> nat -> nat -> M) (used_ij : Z) (cb : list Z)
           (a b : nat) : list M :=
  flat_map (fun c =>
    if negb (Z.land (Z.lor (Z.lor used_ij (nth a cb 0%Z)) (nth b cb 0%Z))
                    (nth c cb 0%Z) =? 0)%Z
    then [] else [emit3 a b c])
  (above b (List.length cb)).

(** The loop over [b] for fixed [a]. *)
Definition triple_b (emit3 : nat -> nat -> nat -> M) (used_ij : Z) (cb : list Z)
           (a : nat) : list M :=
  flat_map (fun b =>
    if negb (Z.land (Z.lor used_ij (nth a cb 0%Z)) (nth b cb 0%Z) =? 0)%Z then []
    else triple_c emit3 used_ij cb a b)
  (above a (List.length cb)).

Definition triple_list (emit3 : nat -> nat -> nat -> M)
           (used_ij : Z) (cb : list Z) : list M :=
  flat_map (triple_b emit3 used_ij cb) (seq 0 (List.length cb)).

(** What one pair [(i, j)] contributes. *)
Definition match_pair (idx : SearchIndex)
           (emit : nat -> nat -> nat -> nat -> nat -> M) (i j : nat) : list M :=
  if negb (Z.land (bitmap_at idx i) (bitmap_at idx j) =? 0)%Z then []
  else
    let used_ij := Z.lor (bitmap_at idx i) (bitmap_at idx j) in
    let ci := candidate_list idx j used_ij in
    triple_list (fun a b c => emit i j (nth a ci 0) (nth b ci 0) (nth c ci 0))
                used_ij (map (bitmap_at idx) ci).

(** The loop over [j] for fixed [i]. *)
Definition match_j (idx : SearchIndex)
           (emit : nat -> nat -> nat -> nat -> nat -> M) (i : nat) : list M :=
  flat_map (match_pair idx emit i) (above i (number_of_words idx)).

Definition match_list (idx : SearchIndex)
           (emit : nat -> nat -> nat -> nat -> nat -> M) : list M :=
  flat_map (match_j idx emit) (seq 0 (number_of_words idx)).

End Comprehension.

(** ** What the search relies on

    [first_hit] is the index at which the loop of [place] stops; [bucket_of]
    is the list a bitmap is filed under, if any.  [index_ok] collects what
    the combine loop establishes and the search reads. *)

Fixpoint first_hit (lbs : list Z) (i : nat) (bitmap : Z) : option nat :=
  match lbs with
  | [] => None
  | lb :: lbs' =>
      if negb (Z.land bitmap lb =? 0)%Z then Some i else first_hit lbs' (S i) bitmap
  end.

Definition bucket_of (bitmap : Z) : option nat := first_hit letter_bitmaps 0 bitmap.

Definition boundary (idx : SearchIndex) (index : nat) : nat :=
  nth index (word_bitmaps_boundaries idx) 0.

Record index_ok (idx : SearchIndex) : Prop := {
    ok_count : number_of_words idx = List.length (word_bitmaps idx);
    ok_words : List.length (unique_words idx) = List.length (word_bitmaps idx);
    ok_bounds : List.length (word_bitmaps_boundaries idx) = List.length letter_bitmaps + 1;
    ok_first : boundary idx 0 = 0;
    ok_last : boundary idx (List.length letter_bitmaps) = number_of_words idx;
    ok_mono : forall index, index < List.length letter_bitmaps ->
                            boundary idx index <= boundary idx (index + 1);
    ok_bucket : forall index k, index < List.length letter_bitmaps ->
                                boundary idx index <= k < boundary idx (index + 1) ->
                                bucket_of (bitmap_at idx k) = Some index;
    ok_popcount : forall k, k < number_of_words idx -> popcount (bitmap_at idx k) = WORD_LENGTH
  }.

(** ** What the filter loop maintains *)

(** [word] passes the tests of lines 100 and 121 with bitmap [bitmap]. *)
Definition admitted (word : string) (bitmap : Z) : Prop :=
  String.length word = WORD_LENGTH /\
  bitmap_of word = Some bitmap /\
  popcount bitmap = WORD_LENGTH.

Definition has_bitmap (bitmap : Z) (word : string) : bool :=
  (String.length word =? WORD_LENGTH) &&
  match bitmap_of word with
  | Some m => (m =? bitmap)%Z
  | None => false
  end.

(** The first word of the input, in input order, that encodes to [bitmap]. *)
Definition first_with (bitmap : Z) (word_list : list string) : option string :=
  find (has_bitmap bitmap) word_list.

(** Some prefix of the input already holds a word for [m1] and none yet
    for [m2]: [m1] was first seen before [m2]. *)
Definition seen_before (word_list : list string) (m1 m2 : Z) : Prop :=
  exists l1 l2, word_list = l1 ++ l2 /\
                first_with m1 l1 <> None /\ first_with m2 l1 = None.

Definition entry_ok (word_list : list string) (bitmap : Z) (word : string) : Prop :=
  admitted word bitmap /\ first_with bitmap word_list = Some word.

(** The per-letter lists after the words [word_list] have been filtered. *)
Record buckets_inv (word_list : list string) (b : Buckets) : Prop := {
    bi_length : List.length (word_bitmaps_letters b) = List.length letter_bitmaps;
    bi_entries : Forall2 (Forall2 (entry_ok word_list))
                         (word_bitmaps_letters b) (unique_words_letters b);
    bi_bucket : forall i m, In m (nth i (word_bitmaps_letters b) []) -> bucket_of m = Some i;
    bi_nodup : forall i, NoDup (nth i (word_bitmaps_letters b) []);
    bi_complete : forall w m i, In w word_list -> admitted w m -> bucket_of m = Some i ->
                                In m (nth i (word_bitmaps_letters b) []);
    bi_order : forall i p q, p < q -> q < List.length (nth i (word_bitmaps_letters b) []) ->
                             seen_before word_list
                                         (nth p (nth i (word_bitmaps_letters b) []) 0%Z)
                                         (nth q (nth i (word_bitmaps_letters b) []) 0%Z)
  }.

(** ** What the combine loop produces *)

(** Where list [i] starts in the flat arrays. *)
Definition offset {A} (v : list (list A)) (i : nat) : nat :=
  List.length (List.concat (firstn i v)).

(** The search index of the input [word_list]: well formed, aligned with
    the first word seen for each bitmap, without repeated bitmaps, and
    holding exactly the bitmaps of the admitted words that meet some entry
    of [letter_bitmaps]. *)
Record index_built (word_list : list string) (idx : SearchIndex) : Prop := {
    ib_ok : index_ok idx;
    ib_entries : Forall2 (entry_ok word_list) (word_bitmaps idx) (unique_words idx);
    ib_nodup : NoDup (word_bitmaps idx);
    ib_members : forall m, In m (word_bitmaps idx) <->
                           exists w, In w word_list /\ admitted w m /\ bucket_of m <> None;
    ib_order : forall index k1 k2, index < List.length letter_bitmaps ->
                                   boundary idx index <= k1 -> k1 < k2 ->
                                   k2 < boundary idx (index + 1) ->
                                   seen_before word_list (bitmap_at idx k1) (bitmap_at idx k2)
  }.

(** ** Character classes and a sample input *)

Definition is_lowercase (c : ascii) : bool :=
  ((char_code "a"%char <=? char_code c) && (char_code c <=? char_code "z"%char))%Z.

Definition sample_words : list string :=
  ["hello"; "fjord"; "cat"; "gucks"; "nymph"; "vibex"; "waltz"; "glyph"]%string.

Definition sample_index : SearchIndex :=
  Eval vm_compute in
    match build_index sample_words with
    | Some idx => idx
    | None => mkSearchIndex 0 [] [] []
    end.

Definition tiny_words : list string := ["nymph"; "fjord"; "waltz"; "glyph"]%string.

Definition tiny_index : SearchIndex :=
  Eval vm_compute in
    match build_index tiny_words with
    | Some idx => idx
    | None => mkSearchIndex 0 [] [] []
    end.

(** Two inputs that differ in the order of their first two words, which
    have the same letters. *)
Definition anagram_words : list string :=
  ["fjord"; "fjodr"; "gucks"; "nymph"; "vibex"; "waltz"]%string.

Definition anagram_words_swapped : list string :=
  ["fjodr"; "fjord"; "gucks"; "nymph"; "vibex"; "waltz"]%string.

(** ** Reading the word list (lines 45-67)

    The file is taken as its content.  [std::getline] hands out what stands
    before the next newline and fails when it reaches the end without
    having taken a character, so a last line without newline counts and a
    final newline opens no further line.  [std::isspace] is that of the "C"
    locale, which the program never changes. *)

Definition newline : ascii := ascii_of_nat 10.

Definition is_space (c : ascii) : bool :=
  ((char_code c =? 32) || ((9 <=? char_code c) && (char_code c <=? 13)))%Z.

(** [line.erase(line.begin(), std::find_if(line.begin(), line.end(), not space))] *)
Fixpoint drop_space (line : list ascii) : list ascii :=
  match line with
  | [] => []
  | c :: rest => if is_space c then drop_space rest else line
  end.

(** Lines 52-59: the leading whitespace goes first, then, found from the
    back, the trailing whitespace. *)
Definition trim (line : string) : string :=
  string_of_list_ascii
    (rev (drop_space (rev (drop_space (list_ascii_of_string line))))).

(** The loop of lines 50-62 before trimming; [line] holds what has been
    taken of the current line. *)
Fixpoint read_lines (content : string) (line : string) : list string :=
  match content with
  | EmptyString =>
      match line with
      | EmptyString => []
      | _ => [line]
      end
  | String c rest =>
      if Ascii.eqb c newline then line :: read_lines rest EmptyString
      else read_lines rest (line ++ String c EmptyString)
  end.

(** [word_list] after the loop. *)
Definition word_list_of (content : string) : list string :=
  map trim (read_lines content EmptyString).

(** ** Printing a match (lines 239-244) *)

Definition print_match (m : list string) : string :=
  (fold_left (fun out word => out ++ word ++ " ") m EmptyString
   ++ String newline EmptyString)%string.

(** The per-letter lists of the sample input. *)
Definition sample_buckets : Buckets :=
  Eval vm_compute in
    match filter_words sample_words initial_buckets with
    | Some b => b
    | None => initial_buckets
    end.

(** An input with a repeated word, two words of the same letters and two
    words for one list. *)
Definition dedup_words : list string :=
  ["vibex"; "fjord"; "shelf"; "fjodr"; "vibex"; "waltz"]%string.

Definition dedup_index : SearchIndex :=
  Eval vm_compute in
    match build_index dedup_words with
    | Some idx => idx
    | None => mkSearchIndex 0 [] [] []
    end.

(** * Bit-level facts *)

Module Bits.

Local Open Scope Z_scope.

Lemma land_lor_zero x y z :
  Z.land (Z.lor x y) z = 0 <-> Z.land x z = 0 /\ Z.land y z = 0.
Proof.
  rewrite Z.land_lor_distr_l. apply Z.lor_eq_0_iff.
Qed.

Lemma land_zero_bits x y :
  Z.land x y = 0 <-> forall n, Z.testbit x n && Z.testbit y n = false.
Proof.
  split.
  - intros H n. rewrite <- Z.land_spec, H. apply Z.bits_0.
  - intros H. apply Z.bits_inj'. intros n _.
    rewrite Z.land_spec, Z.bits_0. apply H.
Qed.

(** A single-bit mask meets [x] exactly when that bit of [x] is set. *)
Lemma land_bit_nonzero x s :
  0 <= s -> (Z.land x (Z.shiftl 1 s) <> 0 <-> Z.testbit x s = true).
Proof.
  intros Hs. rewrite Z.shiftl_1_l. split.
  - intros H. destruct (Z.testbit x s) eqn:E; [reflexivity|].
    exfalso. apply H. apply land_zero_bits. intros n.
    rewrite Z.pow2_bits_eqb by assumption.
    destruct (Z.eqb_spec s n) as [->|]; [now rewrite E | apply andb_false_r].
  - intros H C. apply land_zero_bits with (n := s) in C.
    rewrite H, Z.pow2_bits_eqb, Z.eqb_refl in C by assumption. discriminate.
Qed.

Lemma count_or (f g : nat -> bool) (l : list nat) :
  (forall i, f i && g i = false) ->
  List.length (filter (fun i => f i || g i) l)
  = (List.length (filter f l) + List.length (filter g l))%nat.
Proof.
  intros D. induction l as [|i l IH]; [reflexivity|].
  simpl. specialize (D i).
  destruct (f i), (g i); simpl in *; try discriminate; lia.
Qed.

Lemma popcount_lor x y :
  Z.land x y = 0 -> popcount (Z.lor x y) = (popcount x + popcount y)%nat.
Proof.
  intros H. unfold popcount.
  rewrite <- count_or.
  - f_equal. apply filter_ext. intros i. apply Z.lor_spec.
  - intros i. apply (proj1 (land_zero_bits x y) H).
Qed.

End Bits.

(** * Loops that only append *)

Section Loops.

Context {A : Type}.

Lemma for_loop_append (f : nat -> list A) (body : nat -> list A -> list A) lo hi s :
  (forall k s, lo <= k < hi -> body k s = s ++ f k) ->
  for_loop lo hi body s = s ++ flat_map f (seq lo (hi - lo)).
Proof.
  unfold for_loop. intros H.
  assert (G : forall l s, (forall k, In k l -> lo <= k < hi) ->
              fold_left (fun s k => body k s) l s = s ++ flat_map f l).
  { induction l as [|k l IH]; intros s' Hl; simpl.
    - now rewrite app_nil_r.
    - rewrite H by (apply Hl; now left).
      rewrite IH by (intros; apply Hl; now right).
      now rewrite <- app_assoc. }
  apply G. intros k Hk. apply in_seq in Hk. lia.
Qed.

Lemma for_loop_append_0 (f : nat -> list A) (body : nat -> list A -> list A) hi s :
  (forall k s, k < hi -> body k s = s ++ f k) ->
  for_loop 0 hi body s = s ++ flat_map f (seq 0 hi).
Proof.
  intros H. rewrite <- (Nat.sub_0_r hi) at 2.
  apply for_loop_append. intros k s' Hk. apply H. lia.
Qed.

Lemma for_loop_append2 {B : Type} (f : nat -> list A) (g : nat -> list B)
      (body : nat -> list A * list B -> list A * list B) lo hi s :
  (forall k s, lo <= k < hi -> body k s = (fst s ++ f k, snd s ++ g k)) ->
  for_loop lo hi body s
  = (fst s ++ flat_map f (seq lo (hi - lo)), snd s ++ flat_map g (seq lo (hi - lo))).
Proof.
  unfold for_loop. intros H.
  assert (G : forall l s, (forall k, In k l -> lo <= k < hi) ->
              fold_left (fun s k => body k s) l s
              = (fst s ++ flat_map f l, snd s ++ flat_map g l)).
  { induction l as [|k l IH]; intros s' Hl; simpl.
    - rewrite !app_nil_r. now destruct s'.
    - rewrite H by (apply Hl; now left).
      rewrite IH by (intros; apply Hl; now right).
      simpl. now rewrite <- !app_assoc. }
  apply G. intros k Hk. apply in_seq in Hk. lia.
Qed.

Lemma map_flat_map {B C : Type} (h : B -> C) (g : A -> list B) l :
  map h (flat_map g l) = flat_map (fun x => map h (g x)) l.
Proof.
  induction l as [|x l IH]; simpl; [reflexivity|].
  now rewrite map_app, IH.
Qed.

End Loops.

(** * The search as a list comprehension *)

Section SearchForm.

Variable idx : SearchIndex.

Lemma flat_map_if_single {A B} (p : A -> bool) (h : A -> B) l :
  flat_map (fun k => if p k then [h k] else []) l = map h (filter p l).
Proof.
  induction l as [|k l IH]; simpl; [reflexivity|].
  destruct (p k); simpl; now rewrite IH.
Qed.

Lemma candidates_eq j used_ij :
  candidates idx j used_ij
  = (map (bitmap_at idx) (candidate_list idx j used_ij), candidate_list idx j used_ij).
Proof.
  unfold candidates, candidate_list.
  set (cl := fun index : nat => if (Z.land (nth index letter_bitmaps_search 0%Z) used_ij =? 0)%Z
               then filter _ _ else []).
  rewrite (for_loop_append2 (fun index => map (bitmap_at idx) (cl index)) cl).
  - simpl. rewrite Nat.sub_0_r. now rewrite map_flat_map.
  - intros index s _. unfold cl.
    destruct (Z.land (nth index letter_bitmaps_search 0%Z) used_ij =? 0)%Z.
    + rewrite (for_loop_append2
                 (fun k => if (Z.land used_ij (bitmap_at idx k) =? 0)%Z
                           then [bitmap_at idx k] else [])
                 (fun k => if (Z.land used_ij (bitmap_at idx k) =? 0)%Z
                           then [k] else [])).
      * rewrite !flat_map_if_single, map_id. reflexivity.
      * intros k s' _.
        destruct (Z.land used_ij (bitmap_at idx k) =? 0)%Z; simpl;
          [reflexivity | rewrite !app_nil_r; now destruct s'].
    + simpl. rewrite !app_nil_r. now destruct s.
Qed.

Context {M : Type}.

Lemma in_above k n x : In x (above k n) <-> k < x < n.
Proof. unfold above. rewrite in_seq. lia. Qed.

Lemma in_triple_list (emit3 : nat -> nat -> nat -> M) used_ij cb x :
  In x (triple_list emit3 used_ij cb) <->
  exists a b c,
    a < b /\ b < c /\ c < List.length cb /\
    Z.land (Z.lor used_ij (nth a cb 0%Z)) (nth b cb 0%Z) = 0%Z /\
    Z.land (Z.lor (Z.lor used_ij (nth a cb 0%Z)) (nth b cb 0%Z)) (nth c cb 0%Z) = 0%Z /\
    x = emit3 a b c.
Proof.
  unfold triple_list, triple_b, triple_c. rewrite in_flat_map. split.
  - intros (a & Ha & H). rewrite in_flat_map in H. destruct H as (b & Hb & H).
    apply in_above in Hb.
    destruct (Z.eqb_spec (Z.land (Z.lor used_ij (nth a cb 0%Z)) (nth b cb 0%Z)) 0) as [E1|];
      simpl in H; [|contradiction].
    rewrite in_flat_map in H. destruct H as (c & Hc & H).
    apply in_above in Hc.
    destruct (Z.eqb_spec (Z.land (Z.lor (Z.lor used_ij (nth a cb 0%Z)) (nth b cb 0%Z))
                                 (nth c cb 0%Z)) 0) as [E2|];
      simpl in H; [|contradiction].
    destruct H as [<-|[]]. exists a, b, c. repeat split; try lia; assumption.
  - intros (a & b & c & Hab & Hbc & Hc & E1 & E2 & ->).
    exists a. split; [apply in_seq; lia|].
    rewrite in_flat_map. exists b. split; [apply in_above; lia|].
    rewrite E1. simpl. rewrite in_flat_map. exists c. split; [apply in_above; lia|].
    rewrite E2. simpl. now left.
Qed.

Lemma triple_list_short (emit3 : nat -> nat -> nat -> M) used_ij cb :
  List.length cb < 3 -> triple_list emit3 used_ij cb = [].
Proof.
  intros H. destruct (triple_list emit3 used_ij cb) as [|x l] eqn:E; [reflexivity|].
  assert (Hx : In x (triple_list emit3 used_ij cb)) by (rewrite E; now left).
  apply in_triple_list in Hx. destruct Hx as (a & b & c & ? & ? & ? & _). lia.
Qed.

Lemma triples_eq (emit : nat -> nat -> nat -> nat -> nat -> M) i j used_ij cb ci matches :
  triples emit i j used_ij cb ci matches
  = matches ++ triple_list (fun a b c => emit i j (nth a ci 0) (nth b ci 0) (nth c ci 0))
                           used_ij cb.
Proof.
  unfold triples. destruct (Nat.ltb_spec (List.length cb) (WORD_LENGTH - 2)) as [Hs|Hs].
  - rewrite triple_list_short by exact Hs. now rewrite app_nil_r.
  - unfold triple_list, triple_b, triple_c. cbv zeta.
    apply for_loop_append_0. intros a s _.
    apply for_loop_append. intros b s' _.
    destruct (negb _); [now rewrite app_nil_r|].
    apply for_loop_append. intros c s'' _.
    destruct (negb _); [now rewrite app_nil_r | reflexivity].
Qed.

Lemma search_with_eq (emit : nat -> nat -> nat -> nat -> nat -> M) :
  search_with idx emit = match_list idx emit.
Proof.
  unfold search_with, match_list, match_j, match_pair.
  cbv zeta.
  apply (for_loop_append_0 _ _ (number_of_words idx) []).
  intros i s _. apply for_loop_append. intros j s' _.
  destruct (negb _); [now rewrite app_nil_r|].
  rewrite candidates_eq. simpl. apply triples_eq.
Qed.

Lemma in_match_list (emit : nat -> nat -> nat -> nat -> nat -> M) x :
  In x (match_list idx emit) <->
  exists i j pa pb pc,
    i < j /\ j < number_of_words idx /\
    Z.land (bitmap_at idx i) (bitmap_at idx j) = 0%Z /\
    let used_ij := Z.lor (bitmap_at idx i) (bitmap_at idx j) in
    let ci := candidate_list idx j used_ij in
    let cb := map (bitmap_at idx) ci in
    pa < pb /\ pb < pc /\ pc < List.length ci /\
    Z.land (Z.lor used_ij (nth pa cb 0%Z)) (nth pb cb 0%Z) = 0%Z /\
    Z.land (Z.lor (Z.lor used_ij (nth pa cb 0%Z)) (nth pb cb 0%Z)) (nth pc cb 0%Z) = 0%Z /\
    x = emit i j (nth pa ci 0) (nth pb ci 0) (nth pc ci 0).
Proof.
  unfold match_list, match_j, match_pair. rewrite in_flat_map. split.
  - intros (i & Hi & H). rewrite in_flat_map in H. destruct H as (j & Hj & H).
    apply in_above in Hj.
    destruct (Z.eqb_spec (Z.land (bitmap_at idx i) (bitmap_at idx j)) 0) as [E|];
      simpl in H; [|contradiction].
    apply in_triple_list in H. destruct H as (a & b & c & ? & ? & Hc & ? & ? & ->).
    rewrite length_map in Hc.
    exists i, j, a, b, c. repeat split; try lia; assumption.
  - intros (i & j & a & b & c & Hij & Hj & E & H). simpl in H.
    destruct H as (? & ? & ? & ? & ? & ->).
    exists i. split; [apply in_seq; lia|].
    rewrite in_flat_map. exists j. split; [apply in_above; lia|].
    rewrite E. simpl. apply in_triple_list.
    exists a, b, c. rewrite length_map. repeat split; assumption.
Qed.

End SearchForm.

(** * Buckets and pruning *)

Section Pruning.

Lemma first_hit_spec lbs i bitmap k :
  first_hit lbs i bitmap = Some k ->
  i <= k < i + List.length lbs /\
  Z.land bitmap (nth (k - i) lbs 0%Z) <> 0%Z /\
  forall k', i <= k' < k -> Z.land bitmap (nth (k' - i) lbs 0%Z) = 0%Z.
Proof.
  revert i. induction lbs as [|lb lbs IH]; intros i H; simpl in H; [discriminate|].
  destruct (Z.eqb_spec (Z.land bitmap lb) 0) as [E|E]; simpl in H.
  - apply IH in H. destruct H as (Hk & Hhit & Hmiss). simpl List.length.
    split; [lia|]. split.
    + replace (k - i) with (S (k - S i)) by lia. exact Hhit.
    + intros k' Hk'. destruct (Nat.eq_dec k' i) as [->|Hne].
      * now rewrite Nat.sub_diag.
      * replace (k' - i) with (S (k' - S i)) by lia. apply Hmiss. lia.
  - injection H as <-. rewrite Nat.sub_diag. simpl. repeat split; lia.
Qed.

Lemma first_hit_none lbs i bitmap :
  first_hit lbs i bitmap = None <-> forall lb, In lb lbs -> Z.land bitmap lb = 0%Z.
Proof.
  revert i. induction lbs as [|lb lbs IH]; intros i; simpl.
  - split; [intros _ ? [] | reflexivity].
  - destruct (Z.eqb_spec (Z.land bitmap lb) 0) as [E|E]; simpl.
    + rewrite IH. split.
      * intros H x [<-|Hx]; [exact E | now apply H].
      * intros H x Hx. apply H. now right.
    + split; [discriminate | intros H; exfalso; apply E, H; now left].
Qed.

Lemma bucket_of_hit bitmap index :
  bucket_of bitmap = Some index ->
  index < List.length letter_bitmaps /\
  Z.land bitmap (nth index letter_bitmaps 0%Z) <> 0%Z /\
  forall k, k < index -> Z.land bitmap (nth k letter_bitmaps 0%Z) = 0%Z.
Proof.
  intros H. apply first_hit_spec in H. rewrite !Nat.sub_0_r in H.
  destruct H as (Hk & Hhit & Hmiss). repeat split; [lia | exact Hhit |].
  intros k Hk'. specialize (Hmiss k). rewrite Nat.sub_0_r in Hmiss. apply Hmiss. lia.
Qed.

(** Each named pivot is one bit, and line 165 leaves it in place. *)
Lemma pivot_is_bit index :
  index < List.length letters ->
  exists s, (0 <= s)%Z /\
            nth index letter_bitmaps 0%Z = Z.shiftl 1 s /\
            nth index letter_bitmaps_search 0%Z = Z.shiftl 1 s.
Proof.
  intros H.
  do 12 (destruct index as [|index];
         [eexists; split; [|split; reflexivity]; vm_compute; discriminate|]).
  simpl in H. lia.
Qed.

(** The last list is never skipped by the search. *)
Lemma catch_all_search : nth (List.length letters) letter_bitmaps_search 0%Z = 0%Z.
Proof. reflexivity. Qed.

(** The pruning invariant: a list whose pivot is used up holds no bitmap
    disjoint from [used]. *)
Lemma pruned_bucket_useless bitmap index used :
  bucket_of bitmap = Some index ->
  Z.land used bitmap = 0%Z ->
  Z.land (nth index letter_bitmaps_search 0%Z) used = 0%Z.
Proof.
  intros Hb Hd. apply bucket_of_hit in Hb. destruct Hb as (Hlt & Hhit & _).
  change (List.length letter_bitmaps) with (S (List.length letters)) in Hlt.
  destruct (Nat.eq_dec index (List.length letters)) as [->|Hne].
  - now rewrite catch_all_search.
  - destruct (pivot_is_bit index) as (s & Hs & E1 & E2); [lia|].
    rewrite E2. rewrite E1 in Hhit.
    apply Bits.land_bit_nonzero in Hhit; [|exact Hs].
    destruct (Z.eq_dec (Z.land (Z.shiftl 1 s) used) 0) as [E|E]; [exact E|].
    rewrite Z.land_comm in E. apply Bits.land_bit_nonzero in E; [|exact Hs].
    apply (proj1 (Bits.land_zero_bits used bitmap)) with (n := s) in Hd.
    rewrite E, Hhit in Hd. discriminate.
Qed.

Variable idx : SearchIndex.
Hypothesis OK : index_ok idx.

Lemma boundary_le_last index :
  index <= List.length letter_bitmaps -> boundary idx index <= number_of_words idx.
Proof.
  intros H. rewrite <- (ok_last idx OK).
  remember (List.length letter_bitmaps - index) as d eqn:Hd.
  revert index H Hd. induction d as [|d IH]; intros index H Hd.
  - replace index with (List.length letter_bitmaps) by lia. lia.
  - transitivity (boundary idx (index + 1)).
    + apply (ok_mono idx OK). lia.
    + apply IH; lia.
Qed.

Lemma bucket_exists k :
  k < number_of_words idx ->
  exists index, index < List.length letter_bitmaps /\
                boundary idx index <= k < boundary idx (index + 1).
Proof.
  intros Hk. rewrite <- (ok_last idx OK) in Hk.
  assert (G : forall m, m <= List.length letter_bitmaps -> k < boundary idx m ->
              exists index, index < m /\ boundary idx index <= k < boundary idx (index + 1)).
  { induction m as [|m IH]; intros Hm Hlt.
    - rewrite (ok_first idx OK) in Hlt. lia.
    - destruct (Nat.lt_ge_cases k (boundary idx m)) as [Hlo|Hhi].
      + destruct (IH ltac:(lia) Hlo) as (index & ? & ?). exists index. split; [lia|assumption].
      + exists m. split; [lia|]. replace (m + 1) with (S m) by lia. lia. }
  apply (G (List.length letter_bitmaps)); [lia | exact Hk].
Qed.

(** The candidates of a pair are exactly the later entries disjoint from
    both words: pruning by pivot loses none of them. *)
Lemma in_candidate_list j used_ij k :
  In k (candidate_list idx j used_ij) <->
  j < k /\ k < number_of_words idx /\ Z.land used_ij (bitmap_at idx k) = 0%Z.
Proof.
  unfold candidate_list. rewrite in_flat_map.
  rewrite (ok_bounds idx OK). replace (List.length letter_bitmaps + 1 - 1)
    with (List.length letter_bitmaps) by lia.
  split.
  - intros (index & Hi & H). apply in_seq in Hi.
    destruct (Z.land (nth index letter_bitmaps_search 0%Z) used_ij =? 0)%Z; [|contradiction].
    apply filter_In in H. destruct H as (Hr & Hd). apply in_seq in Hr.
    apply Z.eqb_eq in Hd.
    pose proof (boundary_le_last (index + 1) ltac:(lia)) as Hl.
    unfold boundary in Hl. repeat split; [lia | lia | exact Hd].
  - intros (Hj & Hk & Hd).
    destruct (bucket_exists k Hk) as (index & Hi & Hr).
    exists index. split; [apply in_seq; lia|].
    rewrite (pruned_bucket_useless (bitmap_at idx k) index used_ij
               (ok_bucket idx OK index k Hi Hr) Hd).
    simpl. apply filter_In. split; [|now apply Z.eqb_eq].
    apply in_seq. unfold boundary in Hr. lia.
Qed.

End Pruning.

(** * Strictly increasing lists of indices *)

Section Increasing.

Lemma increasing_app l1 l2 :
  StronglySorted lt l1 -> StronglySorted lt l2 ->
  (forall x y, In x l1 -> In y l2 -> x < y) ->
  StronglySorted lt (l1 ++ l2).
Proof.
  intros H1 H2 Hx. induction H1 as [|a l H1 IH Ha]; simpl; [exact H2|].
  constructor.
  - apply IH. intros x y Hin. apply Hx. now right.
  - apply Forall_app. split; [exact Ha|].
    apply Forall_forall. intros y Hy. apply Hx; [now left | exact Hy].
Qed.

Lemma increasing_seq a n : StronglySorted lt (seq a n).
Proof.
  revert a. induction n as [|n IH]; intros a; simpl; constructor.
  - apply IH.
  - apply Forall_forall. intros x Hx. apply in_seq in Hx. lia.
Qed.

Lemma increasing_filter (p : nat -> bool) l :
  StronglySorted lt l -> StronglySorted lt (filter p l).
Proof.
  induction 1 as [|a l H IH Ha]; simpl; [constructor|].
  destruct (p a); [|exact IH]. constructor; [exact IH|].
  apply Forall_forall. intros x Hx. apply filter_In in Hx.
  rewrite Forall_forall in Ha. apply Ha, Hx.
Qed.

Lemma increasing_nth l p q :
  StronglySorted lt l -> p < q -> q < List.length l -> nth p l 0 < nth q l 0.
Proof.
  intros H. revert p q. induction H as [|a l H IH Ha]; intros p q Hpq Hq; simpl in Hq.
  - lia.
  - destruct q as [|q]; [lia|]. destruct p as [|p]; simpl.
    + rewrite Forall_forall in Ha. apply Ha, nth_In. lia.
    + apply IH; lia.
Qed.

Lemma increasing_NoDup l : StronglySorted lt l -> NoDup l.
Proof.
  induction 1 as [|a l H IH Ha]; constructor; [|exact IH].
  intros Hin. rewrite Forall_forall in Ha. specialize (Ha a Hin). lia.
Qed.

(** Two members in increasing order sit at increasing positions. *)
Lemma increasing_positions l a b :
  StronglySorted lt l -> In a l -> In b l -> a < b ->
  exists pa pb, pa < pb /\ pb < List.length l /\ nth pa l 0 = a /\ nth pb l 0 = b.
Proof.
  intros H Ha Hb Hab.
  destruct (In_nth l a 0 Ha) as (pa & Hpa & Ea).
  destruct (In_nth l b 0 Hb) as (pb & Hpb & Eb).
  exists pa, pb. repeat split; try assumption.
  destruct (Nat.lt_trichotomy pa pb) as [Hlt|[->|Hgt]]; [exact Hlt | lia |].
  pose proof (increasing_nth l pb pa H Hgt Hpa). lia.
Qed.

Lemma chain_le (bound : nat -> nat) m :
  (forall i, i < m -> bound i <= bound (i + 1)) ->
  forall i, i <= m -> bound i <= bound m.
Proof.
  intros Hm. induction m as [|m IH]; intros i Hi.
  - replace i with 0 by lia. lia.
  - destruct (Nat.eq_dec i (S m)) as [->|Hne]; [lia|].
    transitivity (bound m).
    + apply IH; [intros; apply Hm|]; lia.
    + replace (S m) with (m + 1) by lia. apply Hm. lia.
Qed.

Lemma increasing_flat_map (g : nat -> list nat) (bound : nat -> nat) m :
  (forall i, i < m -> StronglySorted lt (g i)) ->
  (forall i x, i < m -> In x (g i) -> bound i <= x < bound (i + 1)) ->
  (forall i, i < m -> bound i <= bound (i + 1)) ->
  StronglySorted lt (flat_map g (seq 0 m)).
Proof.
  induction m as [|m IH]; intros Hs Hr Hm; [constructor|].
  rewrite seq_S, flat_map_app. simpl. rewrite app_nil_r.
  apply increasing_app.
  - apply IH; intros; [apply Hs | apply Hr | apply Hm]; auto.
  - apply Hs. lia.
  - intros x y Hx Hy. apply in_flat_map in Hx. destruct Hx as (i & Hi & Hx).
    apply in_seq in Hi. apply Hr in Hx; [|lia]. apply Hr in Hy; [|lia].
    pose proof (chain_le bound m ltac:(intros; apply Hm; lia) (i + 1) ltac:(lia)).
    lia.
Qed.

End Increasing.

(** * The pruned search against all increasing index tuples *)

Section SearchSpec.

Variable idx : SearchIndex.
Hypothesis OK : index_ok idx.

Lemma candidate_list_increasing j used_ij :
  StronglySorted lt (candidate_list idx j used_ij).
Proof.
  unfold candidate_list. rewrite (ok_bounds idx OK).
  replace (List.length letter_bitmaps + 1 - 1) with (List.length letter_bitmaps) by lia.
  apply increasing_flat_map with (bound := boundary idx).
  - intros index _. destruct (_ =? _)%Z; [|constructor].
    apply increasing_filter, increasing_seq.
  - intros index x _ H. destruct (_ =? _)%Z; [|contradiction].
    apply filter_In in H. destruct H as (H & _). apply in_seq in H.
    unfold boundary. lia.
  - apply (ok_mono idx OK).
Qed.

Lemma candidate_bitmap_nth j used_ij p :
  p < List.length (candidate_list idx j used_ij) ->
  nth p (map (bitmap_at idx) (candidate_list idx j used_ij)) 0%Z
  = bitmap_at idx (nth p (candidate_list idx j used_ij) 0).
Proof.
  intros H. rewrite (nth_indep _ 0%Z (bitmap_at idx 0)) by (now rewrite length_map).
  apply map_nth.
Qed.

Lemma disjoint5 mi mj ma mb mc :
  pairwise_disjointb [mi; mj; ma; mb; mc] = true <->
  Z.land mi mj = 0%Z /\
  Z.land (Z.lor mi mj) ma = 0%Z /\
  Z.land (Z.lor mi mj) mb = 0%Z /\
  Z.land (Z.lor mi mj) mc = 0%Z /\
  Z.land (Z.lor (Z.lor mi mj) ma) mb = 0%Z /\
  Z.land (Z.lor (Z.lor (Z.lor mi mj) ma) mb) mc = 0%Z.
Proof.
  simpl. rewrite !andb_true_r, !andb_true_iff, !Z.eqb_eq, !Bits.land_lor_zero.
  split; intros H; decompose [and] H; clear H; repeat split; assumption.
Qed.

Context {M : Type} (emit : nat -> nat -> nat -> nat -> nat -> M).

(** What the pruned search pushes: one entry per strictly increasing
    index tuple whose five bitmaps are pairwise disjoint. *)
Lemma in_search_with x :
  In x (search_with idx emit) <->
  exists i j a b c,
    i < j /\ j < a /\ a < b /\ b < c /\ c < number_of_words idx /\
    pairwise_disjointb (map (bitmap_at idx) [i; j; a; b; c]) = true /\
    x = emit i j a b c.
Proof.
  rewrite search_with_eq, in_match_list. split.
  - intros (i & j & pa & pb & pc & Hij & Hj & E & H). cbv zeta in H.
    set (used_ij := Z.lor (bitmap_at idx i) (bitmap_at idx j)) in *.
    set (ci := candidate_list idx j used_ij) in *.
    destruct H as (Hab & Hbc & Hc & E1 & E2 & ->).
    pose proof (candidate_list_increasing j used_ij) as Hs. fold ci in Hs.
    pose proof (candidate_bitmap_nth j used_ij pa ltac:(fold ci; lia)) as Na.
    pose proof (candidate_bitmap_nth j used_ij pb ltac:(fold ci; lia)) as Nb.
    pose proof (candidate_bitmap_nth j used_ij pc Hc) as Nc.
    fold ci in Na, Nb, Nc. rewrite Na, Nb in E1. rewrite Na, Nb, Nc in E2.
    assert (Ha : In (nth pa ci 0) ci) by (apply nth_In; lia).
    assert (Hb : In (nth pb ci 0) ci) by (apply nth_In; lia).
    assert (Hcc : In (nth pc ci 0) ci) by (apply nth_In; lia).
    apply (in_candidate_list idx OK) in Ha, Hb, Hcc.
    pose proof (increasing_nth ci pa pb Hs Hab ltac:(lia)).
    pose proof (increasing_nth ci pb pc Hs Hbc Hc).
    exists i, j, (nth pa ci 0), (nth pb ci 0), (nth pc ci 0).
    repeat split; try lia.
    apply disjoint5. fold used_ij. tauto.
  - intros (i & j & a & b & c & Hij & Hja & Hab & Hbc & Hc & D & ->).
    apply disjoint5 in D. destruct D as (E & Da & Db & Dc & E1 & E2).
    set (used_ij := Z.lor (bitmap_at idx i) (bitmap_at idx j)) in *.
    set (ci := candidate_list idx j used_ij).
    pose proof (candidate_list_increasing j used_ij) as Hs. fold ci in Hs.
    assert (Ha : In a ci) by (apply (in_candidate_list idx OK); repeat split; [lia|lia|exact Da]).
    assert (Hb : In b ci) by (apply (in_candidate_list idx OK); repeat split; [lia|lia|exact Db]).
    assert (Hcc : In c ci) by (apply (in_candidate_list idx OK); repeat split; [lia|lia|exact Dc]).
    destruct (increasing_positions ci a b Hs Ha Hb Hab) as (pa & pb & Hpab & Hpb & Ea & Eb).
    destruct (increasing_positions ci b c Hs Hb Hcc Hbc) as (pb' & pc & Hpbc & Hpc & Eb' & Ec).
    assert (pb' = pb).
    { apply (proj1 (NoDup_nth ci 0) (increasing_NoDup ci Hs)); [lia | lia | congruence]. }
    subst pb'.
    pose proof (candidate_bitmap_nth j used_ij pa ltac:(fold ci; lia)) as Na.
    pose proof (candidate_bitmap_nth j used_ij pb ltac:(fold ci; lia)) as Nb.
    pose proof (candidate_bitmap_nth j used_ij pc Hpc) as Nc.
    fold ci in Na, Nb, Nc.
    exists i, j, pa, pb, pc. cbv zeta. fold used_ij. fold ci.
    rewrite Na, Nb, Nc, Ea, Eb, Ec. repeat split; try lia; assumption.
Qed.

Lemma in_brute_force masks t :
  In t (brute_force masks) <->
  exists i j a b c,
    i < j /\ j < a /\ a < b /\ b < c /\ c < List.length masks /\
    pairwise_disjointb (map (fun k => nth k masks 0%Z) [i; j; a; b; c]) = true /\
    t = [i; j; a; b; c].
Proof.
  unfold brute_force. split.
  - intros H. apply in_flat_map in H. destruct H as (i & _ & H).
    apply in_flat_map in H. destruct H as (j & Hj & H). apply in_above in Hj.
    apply in_flat_map in H. destruct H as (a & Ha & H). apply in_above in Ha.
    apply in_flat_map in H. destruct H as (b & Hb & H). apply in_above in Hb.
    apply in_flat_map in H. destruct H as (c & Hc & H). apply in_above in Hc.
    destruct (pairwise_disjointb _) eqn:D; [|contradiction].
    destruct H as [<-|[]]. exists i, j, a, b, c. repeat split; try lia. exact D.
  - intros (i & j & a & b & c & Hij & Hja & Hab & Hbc & Hc & D & ->).
    apply in_flat_map. exists i. split; [apply in_seq; lia|].
    apply in_flat_map. exists j. split; [apply in_above; lia|].
    apply in_flat_map. exists a. split; [apply in_above; lia|].
    apply in_flat_map. exists b. split; [apply in_above; lia|].
    apply in_flat_map. exists c. split; [apply in_above; lia|].
    rewrite D. now left.
Qed.

End SearchSpec.

(** * Lists of lists *)

Section ListFacts.

Lemma Forall2_concat {A B} (R : A -> B -> Prop) v1 v2 :
  Forall2 (Forall2 R) v1 v2 -> Forall2 R (List.concat v1) (List.concat v2).
Proof.
  induction 1 as [|l1 l2 v1 v2 Hl Hv IH]; simpl; [constructor|].
  now apply Forall2_app.
Qed.

Lemma Forall2_at {A B} (R : A -> B -> Prop) l1 l2 k d1 d2 :
  Forall2 R l1 l2 -> k < List.length l1 -> R (nth k l1 d1) (nth k l2 d2).
Proof.
  intros H. revert k. induction H as [|x y l1 l2 Hxy Hl IH]; intros k Hk; simpl in Hk.
  - lia.
  - destruct k as [|k]; simpl; [exact Hxy | apply IH; lia].
Qed.

Lemma Forall2_In_l {A B} (R : A -> B -> Prop) l1 l2 x :
  Forall2 R l1 l2 -> In x l1 -> exists y, In y l2 /\ R x y.
Proof.
  induction 1 as [|a b l1 l2 Hab Hl IH]; intros Hx; [contradiction|].
  destruct Hx as [<-|Hx].
  - exists b. split; [now left | exact Hab].
  - destruct (IH Hx) as (y & Hy & Hr). exists y. split; [now right | exact Hr].
Qed.

Lemma last_is_nth {A} (l : list A) d : last l d = nth (List.length l - 1) l d.
Proof.
  induction l as [|x l IH]; [reflexivity|].
  destruct l as [|y l]; [reflexivity|].
  change (last (x :: y :: l) d) with (last (y :: l) d). rewrite IH.
  simpl. now rewrite Nat.sub_0_r.
Qed.

End ListFacts.

(** * The filter loop *)

Section Filter.

Lemma push_at_length {A} i (x : A) v : List.length (push_at i x v) = List.length v.
Proof.
  revert i. induction v as [|l v IH]; intros [|i]; simpl; try reflexivity.
  now rewrite IH.
Qed.

Lemma nth_push_at_same {A} i (x : A) v :
  i < List.length v -> nth i (push_at i x v) [] = nth i v [] ++ [x].
Proof.
  revert i. induction v as [|l v IH]; intros [|i] H; simpl in *; try lia; try reflexivity.
  apply IH. lia.
Qed.

Lemma nth_push_at_other {A} i i' (x : A) v :
  i <> i' -> nth i' (push_at i x v) [] = nth i' v [].
Proof.
  revert i i'. induction v as [|l v IH]; intros [|i] [|i'] H; simpl; try reflexivity; try lia.
  apply IH. lia.
Qed.

Lemma push_at_Forall2 {A B} (R : A -> B -> Prop) i x y v1 v2 :
  Forall2 (Forall2 R) v1 v2 -> R x y ->
  Forall2 (Forall2 R) (push_at i x v1) (push_at i y v2).
Proof.
  intros H Hxy. revert i. induction H as [|l1 l2 v1 v2 Hl Hv IH]; intros [|i]; simpl;
    constructor; auto.
  apply Forall2_app; [exact Hl | now constructor].
Qed.

Lemma seen_In bitmap v : seen bitmap v = true <-> In bitmap v.
Proof.
  unfold seen. rewrite existsb_exists. split.
  - intros (x & Hx & E). apply Z.eqb_eq in E. now subst.
  - intros H. exists bitmap. split; [exact H | apply Z.eqb_refl].
Qed.

(** The loop of lines 122-134 stops exactly at [first_hit]. *)
Lemma place_first_hit lbs i bitmap word st :
  place lbs i bitmap word st =
  match first_hit lbs i bitmap with
  | Some k =>
      if seen bitmap (nth k (word_bitmaps_letters st) []) then st
      else mkBuckets (push_at k bitmap (word_bitmaps_letters st))
                     (push_at k word (unique_words_letters st))
  | None => st
  end.
Proof.
  revert i. induction lbs as [|lb lbs IH]; intros i; simpl; [reflexivity|].
  destruct (negb (Z.land bitmap lb =? 0)%Z); [|apply IH].
  now destruct (seen bitmap _).
Qed.

Lemma has_bitmap_admitted bitmap word :
  popcount bitmap = WORD_LENGTH ->
  (has_bitmap bitmap word = true <-> admitted word bitmap).
Proof.
  intros Hp. unfold has_bitmap, admitted. rewrite andb_true_iff, Nat.eqb_eq.
  destruct (bitmap_of word) as [m|].
  - rewrite Z.eqb_eq. split; [intros (? & ->) | intros (? & [= ->] & ?)]; auto.
  - split; [intros (_ & [=]) | intros (_ & [=] & _)].
Qed.

Lemma first_with_app bitmap l1 l2 :
  first_with bitmap (l1 ++ l2) =
  match first_with bitmap l1 with
  | Some w => Some w
  | None => first_with bitmap l2
  end.
Proof.
  unfold first_with. induction l1 as [|w l1 IH]; simpl; [reflexivity|].
  now destruct (has_bitmap bitmap w).
Qed.

Lemma entry_ok_later ws w' bitmap word :
  entry_ok ws bitmap word -> entry_ok (ws ++ [w']) bitmap word.
Proof.
  intros (Ha & Hf). split; [exact Ha|]. now rewrite first_with_app, Hf.
Qed.

Lemma entries_later ws w' v1 v2 :
  Forall2 (Forall2 (entry_ok ws)) v1 v2 ->
  Forall2 (Forall2 (entry_ok (ws ++ [w']))) v1 v2.
Proof.
  apply Forall2_impl. intros l1 l2. apply Forall2_impl.
  intros m w. apply entry_ok_later.
Qed.

Lemma seen_before_later ws w' m1 m2 :
  seen_before ws m1 m2 -> seen_before (ws ++ [w']) m1 m2.
Proof.
  intros (l1 & l2 & -> & H1 & H2). exists l1, (l2 ++ [w']).
  split; [now rewrite app_assoc | now split].
Qed.

Lemma initial_buckets_inv : buckets_inv [] initial_buckets.
Proof.
  split; unfold initial_buckets; cbn [word_bitmaps_letters unique_words_letters].
  - apply repeat_length.
  - generalize (List.length letter_bitmaps). intros n.
    induction n; simpl; repeat constructor; assumption.
  - intros i m H. rewrite nth_repeat in H. contradiction.
  - intros i. rewrite nth_repeat. constructor.
  - intros w m i [].
  - intros i p q _ H. rewrite nth_repeat in H. simpl in H. lia.
Qed.

(** A word the loop skips leaves the invariant in place. *)
Lemma skipped_word_inv ws st word :
  buckets_inv ws st ->
  (forall m i, admitted word m -> bucket_of m = Some i ->
               In m (nth i (word_bitmaps_letters st) [])) ->
  buckets_inv (ws ++ [word]) st.
Proof.
  intros [Hl He Hb Hn Hc Ho] Hskip. split; auto.
  - now apply entries_later.
  - intros w m i Hw Ha Hi. apply in_app_or in Hw. destruct Hw as [Hw|[<-|[]]].
    + now apply (Hc w).
    + now apply Hskip.
  - intros i p q Hpq Hq. apply seen_before_later. now apply Ho.
Qed.

Lemma filter_word_inv ws st word st' :
  buckets_inv ws st -> filter_word st word = Some st' ->
  buckets_inv (ws ++ [word]) st'.
Proof.
  intros Inv H. unfold filter_word in H.
  destruct (Nat.eqb_spec (String.length word) WORD_LENGTH) as [Hlen|Hlen];
    cbn [negb] in H.
  2:{ injection H as <-. apply skipped_word_inv; [exact Inv|].
      intros m i (Hl & _). contradiction. }
  destruct (bitmap_of word) as [bitmap|] eqn:Hbm; [|discriminate].
  destruct (Nat.eqb_spec (popcount bitmap) WORD_LENGTH) as [Hpop|Hpop].
  2:{ injection H as <-. apply skipped_word_inv; [exact Inv|].
      intros m i (_ & Hm & Hp). rewrite Hbm in Hm. injection Hm as <-. contradiction. }
  assert (E : st' = place letter_bitmaps 0 bitmap word st) by congruence.
  subst st'. clear H. rewrite place_first_hit. fold (bucket_of bitmap).
  destruct (bucket_of bitmap) as [k|] eqn:Hk.
  2:{ apply skipped_word_inv; [exact Inv|].
      intros m i (_ & Hm & _) Hi. congruence. }
  destruct (seen bitmap (nth k (word_bitmaps_letters st) [])) eqn:Hseen.
  { apply skipped_word_inv; [exact Inv|].
    intros m i (_ & Hm & _) Hi. apply seen_In in Hseen. congruence. }
  assert (Hnew : ~ In bitmap (nth k (word_bitmaps_letters st) [])).
  { intros Hin. apply seen_In in Hin. congruence. }
  destruct Inv as [Hl He Hb Hn Hc Ho].
  assert (Hklt : k < List.length (word_bitmaps_letters st)).
  { rewrite Hl. now apply bucket_of_hit in Hk. }
  assert (Hadm : admitted word bitmap) by (repeat split; assumption).
  assert (Hfresh : first_with bitmap ws = None).
  { destruct (first_with bitmap ws) as [w0|] eqn:Hf; [|reflexivity].
    exfalso. apply Hnew. apply find_some in Hf. destruct Hf as (Hin & Hhas).
    apply (Hc w0); [exact Hin | now apply has_bitmap_admitted | exact Hk]. }
  split; simpl.
  - now rewrite push_at_length.
  - apply push_at_Forall2; [now apply entries_later|].
    split; [exact Hadm|]. rewrite first_with_app, Hfresh.
    simpl. now rewrite (proj2 (has_bitmap_admitted bitmap word Hpop) Hadm).
  - intros i m Hin. destruct (Nat.eq_dec k i) as [<-|Hne].
    + rewrite nth_push_at_same in Hin by exact Hklt.
      apply in_app_or in Hin. destruct Hin as [Hin|[<-|[]]]; [now apply Hb | exact Hk].
    + rewrite nth_push_at_other in Hin by exact Hne. now apply Hb.
  - intros i. destruct (Nat.eq_dec k i) as [<-|Hne].
    + rewrite nth_push_at_same by exact Hklt.
      apply NoDup_app; [apply Hn | repeat constructor; intros [] |].
      intros a Ha [<-|[]]. contradiction.
    + rewrite nth_push_at_other by exact Hne. apply Hn.
  - intros w m i Hw Ha Hi. destruct (Nat.eq_dec k i) as [<-|Hne].
    + rewrite nth_push_at_same by exact Hklt. apply in_or_app.
      apply in_app_or in Hw. destruct Hw as [Hw|[<-|[]]].
      * left. now apply (Hc w).
      * right. left. destruct Ha as (_ & Ha & _). congruence.
    + rewrite nth_push_at_other by exact Hne.
      apply in_app_or in Hw. destruct Hw as [Hw|[<-|[]]]; [now apply (Hc w)|].
      destruct Ha as (_ & Ha & _). congruence.
  - intros i p q Hpq Hq. destruct (Nat.eq_dec k i) as [<-|Hne].
    + rewrite nth_push_at_same in * by exact Hklt.
      rewrite length_app in Hq. simpl in Hq.
      rewrite (app_nth1 _ _ _ (n := p)) by lia.
      destruct (Nat.eq_dec q (List.length (nth k (word_bitmaps_letters st) []))) as [->|Hq'].
      * rewrite app_nth2, Nat.sub_diag by lia. simpl.
        exists ws, [word]. split; [reflexivity|]. split; [|exact Hfresh].
        pose proof (Forall2_at _ _ _ k [] [] He Hklt) as Hk2.
        destruct (Forall2_at _ _ _ p 0%Z EmptyString Hk2 ltac:(lia)) as (_ & Hf).
        rewrite Hf. discriminate.
      * rewrite app_nth1 by lia. apply seen_before_later. apply Ho; lia.
    + rewrite nth_push_at_other in * by exact Hne.
      apply seen_before_later. now apply Ho.
Qed.

Lemma filter_words_inv ws ws0 st0 st :
  buckets_inv ws0 st0 -> filter_words ws st0 = Some st ->
  buckets_inv (ws0 ++ ws) st.
Proof.
  revert ws0 st0. induction ws as [|w ws IH]; intros ws0 st0 Inv H; simpl in H.
  - injection H as <-. now rewrite app_nil_r.
  - destruct (filter_word st0 w) as [st1|] eqn:Hw; [|discriminate].
    replace (ws0 ++ w :: ws) with ((ws0 ++ [w]) ++ ws) by (now rewrite <- app_assoc).
    apply (IH _ st1); [|exact H]. now apply (filter_word_inv ws0 st0).
Qed.

(** The filter loop fails only on a word of length five with an
    undefined shift. *)
Lemma filter_words_defined ws st :
  (exists st', filter_words ws st = Some st') <->
  Forall (fun w => String.length w = WORD_LENGTH -> bitmap_of w <> None) ws.
Proof.
  revert st. induction ws as [|w ws IH]; intros st; simpl.
  - split; [constructor | eauto].
  - rewrite Forall_cons_iff. unfold filter_word at 1.
    destruct (Nat.eqb_spec (String.length w) WORD_LENGTH) as [Hlen|Hlen]; cbn [negb].
    + destruct (bitmap_of w) as [bitmap|] eqn:Hbm.
      * destruct (popcount bitmap =? WORD_LENGTH); rewrite IH;
          (split; [intros H; split; [discriminate | exact H] | tauto]).
      * split; [intros (? & [=]) | intros (H & _); now exfalso; apply H].
    + rewrite IH. tauto.
Qed.

End Filter.

(** * The combine loop *)

Section Combine.

Lemma for_loop_S {S} lo hi (body : nat -> S -> S) s :
  lo <= hi -> for_loop lo (Datatypes.S hi) body s = body hi (for_loop lo hi body s).
Proof.
  intros H. unfold for_loop.
  replace (Datatypes.S hi - lo) with (Datatypes.S (hi - lo)) by lia.
  rewrite seq_S, fold_left_app. simpl. f_equal. lia.
Qed.

Lemma concat_firstn_S {A} (v : list (list A)) k :
  List.concat (firstn (S k) v) = List.concat (firstn k v) ++ nth k v [].
Proof.
  revert k. induction v as [|l v IH]; intros k.
  - destruct k; reflexivity.
  - destruct k as [|k].
    + simpl. now rewrite app_nil_r.
    + change (firstn (S (S k)) (l :: v)) with (l :: firstn (S k) v).
      change (firstn (S k) (l :: v)) with (l :: firstn k v).
      rewrite !concat_cons, IH. cbn [nth]. now rewrite app_assoc.
Qed.

Lemma offset_S {A} (v : list (list A)) k :
  offset v (S k) = offset v k + List.length (nth k v []).
Proof. unfold offset. now rewrite concat_firstn_S, length_app. Qed.

Lemma offset_all {A} (v : list (list A)) :
  offset v (List.length v) = List.length (List.concat v).
Proof. unfold offset. now rewrite firstn_all. Qed.

Lemma sum_lengths {A} (v : list (list A)) a :
  fold_left (fun sum vec => sum + List.length vec) v a = a + List.length (List.concat v).
Proof.
  revert a. induction v as [|l v IH]; intros a; simpl; [lia|].
  rewrite IH, length_app. lia.
Qed.

Lemma combine_loop (b : Buckets) k :
  for_loop 0 k
    (fun i '(wb, uw, bounds) =>
       (wb ++ nth i (word_bitmaps_letters b) [],
        uw ++ nth i (unique_words_letters b) [],
        bounds ++ [List.length wb]))
    ([], [], [])
  = (List.concat (firstn k (word_bitmaps_letters b)),
     List.concat (firstn k (unique_words_letters b)),
     map (offset (word_bitmaps_letters b)) (seq 0 k)).
Proof.
  induction k as [|k IH]; [reflexivity|].
  rewrite for_loop_S by lia. rewrite IH.
  rewrite !concat_firstn_S, seq_S, map_app. reflexivity.
Qed.

Lemma combine_eq (b : Buckets) :
  List.length (unique_words_letters b) = List.length (word_bitmaps_letters b) ->
  combine b =
  mkSearchIndex (List.length (List.concat (word_bitmaps_letters b)))
                (List.concat (word_bitmaps_letters b))
                (List.concat (unique_words_letters b))
                (map (offset (word_bitmaps_letters b))
                     (seq 0 (List.length (word_bitmaps_letters b) + 1))).
Proof.
  intros Hlen. unfold combine. rewrite combine_loop, sum_lengths.
  rewrite <- Hlen at 2. rewrite !firstn_all.
  rewrite Nat.add_1_r, seq_S, map_app. simpl. now rewrite offset_all.
Qed.

Lemma nth_offsets {A} (v : list (list A)) m index :
  index < m -> nth index (map (offset v) (seq 0 m)) 0 = offset v index.
Proof.
  intros H. change 0 with (offset v 0) at 2.
  rewrite map_nth, seq_nth by exact H. reflexivity.
Qed.

(** An index between two consecutive offsets reads from that list. *)
Lemma nth_concat_offset {A} (v : list (list A)) i k d :
  offset v i <= k < offset v (S i) ->
  nth k (List.concat v) d = nth (k - offset v i) (nth i v []) d.
Proof.
  revert i k. induction v as [|l v IH]; intros i k H.
  - unfold offset in H. rewrite !firstn_nil in H. simpl in H. lia.
  - destruct i as [|i].
    + unfold offset in H. simpl in H. rewrite app_nil_r in H.
      unfold offset. simpl. rewrite app_nth1 by lia. now rewrite Nat.sub_0_r.
    + unfold offset in *.
      change (firstn (S (S i)) (l :: v)) with (l :: firstn (S i) v) in H.
      change (firstn (S i) (l :: v)) with (l :: firstn i v) in *.
      rewrite !concat_cons, !length_app in *.
      cbn [nth]. rewrite app_nth2 by lia. rewrite (IH i) by lia. f_equal. lia.
Qed.

Lemma nth_concat_bucket {A} (v : list (list A)) i k d :
  offset v i <= k < offset v (S i) -> In (nth k (List.concat v) d) (nth i v []).
Proof.
  intros H. rewrite nth_concat_offset with (i := i) by exact H.
  apply nth_In. rewrite offset_S in H. lia.
Qed.

Lemma in_concat_nth {A} (v : list (list A)) x :
  In x (List.concat v) <-> exists i, In x (nth i v []).
Proof.
  rewrite in_concat. split.
  - intros (l & Hl & Hx). destruct (In_nth v l [] Hl) as (i & _ & E).
    exists i. now rewrite E.
  - intros (i & Hx). exists (nth i v []). split; [|exact Hx].
    destruct (Nat.lt_ge_cases i (List.length v)) as [Hi|Hi].
    + now apply nth_In.
    + rewrite nth_overflow in Hx by exact Hi. contradiction.
Qed.

(** Lists filed under different keys share no element. *)
Lemma NoDup_concat_keyed {A} (key : A -> option nat) (v : list (list A)) off :
  (forall i, NoDup (nth i v [])) ->
  (forall i x, In x (nth i v []) -> key x = Some (off + i)) ->
  NoDup (List.concat v).
Proof.
  revert off. induction v as [|l v IH]; intros off Hn Hk; simpl; [constructor|].
  apply NoDup_app.
  - apply (Hn 0).
  - apply (IH (S off)).
    + intros i. apply (Hn (S i)).
    + intros i x Hx. rewrite (Hk (S i) x Hx). f_equal. lia.
  - intros x Hx Hc. apply in_concat_nth in Hc. destruct Hc as (i & Hi).
    pose proof (Hk 0 x Hx) as E0. pose proof (Hk (S i) x Hi) as E1.
    rewrite E0 in E1. injection E1. lia.
Qed.

Lemma combine_built ws b :
  buckets_inv ws b -> index_built ws (combine b).
Proof.
  intros [Hl He Hb Hn Hc Ho].
  assert (Hlen : List.length (unique_words_letters b)
                 = List.length (word_bitmaps_letters b))
    by (symmetry; eapply Forall2_length; exact He).
  rewrite (combine_eq b Hlen).
  pose proof (Forall2_concat _ _ _ He) as Hflat.
  assert (Hbd : forall index, index <= List.length letter_bitmaps ->
            boundary (mkSearchIndex (List.length (List.concat (word_bitmaps_letters b)))
                        (List.concat (word_bitmaps_letters b))
                        (List.concat (unique_words_letters b))
                        (map (offset (word_bitmaps_letters b))
                             (seq 0 (List.length (word_bitmaps_letters b) + 1)))) index
            = offset (word_bitmaps_letters b) index).
  { intros index Hi. unfold boundary. simpl. apply nth_offsets. lia. }
  split; [split|..];
    cbn [number_of_words word_bitmaps unique_words word_bitmaps_boundaries].
  - reflexivity.
  - symmetry. eapply Forall2_length. exact Hflat.
  - now rewrite length_map, length_seq, Hl.
  - rewrite Hbd by lia. reflexivity.
  - rewrite Hbd by lia. rewrite <- Hl. apply offset_all.
  - intros index Hi. rewrite !Hbd by lia. rewrite Nat.add_1_r, offset_S. lia.
  - intros index k Hi Hk. rewrite !Hbd in Hk by lia. rewrite Nat.add_1_r in Hk.
    apply Hb. unfold bitmap_at. simpl. now apply nth_concat_bucket.
  - intros k Hk. unfold bitmap_at. simpl.
    apply (Forall2_at _ _ _ k 0%Z EmptyString Hflat Hk).
  - exact Hflat.
  - apply (NoDup_concat_keyed bucket_of _ 0); [exact Hn | exact Hb].
  - intros m. rewrite in_concat_nth. split.
    + intros (i & Hi).
      assert (Hm : In m (List.concat (word_bitmaps_letters b)))
        by (apply in_concat_nth; eauto).
      destruct (Forall2_In_l _ _ _ m Hflat Hm) as (w & _ & Ha & Hf).
      apply find_some in Hf. exists w. split; [tauto|]. split; [exact Ha|].
      rewrite (Hb i m Hi). discriminate.
    + intros (w & Hw & Ha & Hne).
      destruct (bucket_of m) as [i|] eqn:Hi; [|contradiction].
      exists i. now apply (Hc w).
  - intros index k1 k2 Hi H1 H12 H2. rewrite !Hbd in * by lia.
    rewrite Nat.add_1_r in H2. unfold bitmap_at. simpl.
    pose proof (offset_S (word_bitmaps_letters b) index) as HS.
    rewrite !nth_concat_offset with (i := index) by lia.
    apply Ho; lia.
Qed.

Theorem build_index_built ws idx :
  build_index ws = Some idx -> index_built ws idx.
Proof.
  unfold build_index. intros H.
  destruct (filter_words ws initial_buckets) as [b|] eqn:Hf; [|discriminate].
  injection H as <-. apply combine_built.
  apply (filter_words_inv ws [] initial_buckets b initial_buckets_inv Hf).
Qed.

Lemma build_index_defined ws :
  (exists idx, build_index ws = Some idx) <->
  Forall (fun w => String.length w = WORD_LENGTH -> bitmap_of w <> None) ws.
Proof.
  rewrite <- (filter_words_defined ws initial_buckets). unfold build_index.
  destruct (filter_words ws initial_buckets) as [b|]; split.
  - eauto.
  - eauto.
  - intros (? & [=]).
  - intros (? & [=]).
Qed.

End Combine.

(** * Words and indices of a match *)

Section Emission.

Variable idx : SearchIndex.

Lemma triple_list_map {M M'} (f : M -> M') (emit3 : nat -> nat -> nat -> M) used_ij cb :
  map f (triple_list emit3 used_ij cb)
  = triple_list (fun a b c => f (emit3 a b c)) used_ij cb.
Proof.
  unfold triple_list, triple_b, triple_c. rewrite map_flat_map. apply flat_map_ext. intros a.
  rewrite map_flat_map. apply flat_map_ext. intros b.
  destruct (negb _); [reflexivity|].
  rewrite map_flat_map. apply flat_map_ext. intros c.
  now destruct (negb _).
Qed.

Lemma match_list_map {M M'} (f : M -> M') (emit : nat -> nat -> nat -> nat -> nat -> M) :
  map f (match_list idx emit)
  = match_list idx (fun i j a b c => f (emit i j a b c)).
Proof.
  unfold match_list, match_j, match_pair. rewrite map_flat_map. apply flat_map_ext. intros i.
  rewrite map_flat_map. apply flat_map_ext. intros j.
  destruct (negb _); [reflexivity|]. apply triple_list_map.
Qed.

(** Every match holds the words stored at the five indices the search
    tested, in that order. *)
Lemma search_words_of_indices :
  search idx = map (map (word_at idx)) (search_indices idx).
Proof.
  unfold search, search_indices. rewrite !search_with_eq, match_list_map. reflexivity.
Qed.

Hypothesis OK : index_ok idx.

Lemma in_search_indices t :
  In t (search_indices idx) <-> In t (brute_force (word_bitmaps idx)).
Proof.
  unfold search_indices. rewrite (in_search_with idx OK), in_brute_force.
  rewrite <- (ok_count idx OK). reflexivity.
Qed.

Lemma search_indices_increasing t :
  In t (search_indices idx) ->
  exists i j a b c,
    t = [i; j; a; b; c] /\ i < j /\ j < a /\ a < b /\ b < c /\ c < number_of_words idx.
Proof.
  unfold search_indices. rewrite (in_search_with idx OK).
  intros (i & j & a & b & c & ? & ? & ? & ? & ? & _ & ->).
  exists i, j, a, b, c. repeat split; assumption.
Qed.

Lemma search_few_words : number_of_words idx < 5 -> search idx = [].
Proof.
  intros H. rewrite search_words_of_indices.
  destruct (search_indices idx) as [|t l] eqn:E; [reflexivity|].
  destruct (search_indices_increasing t) as (i & j & a & b & c & _ & ?);
    [rewrite E; now left | lia].
Qed.

End Emission.

(** * The search index *)

Section IndexFacts.

Variables (ws : list string) (idx : SearchIndex).
Hypothesis Built : index_built ws idx.

Lemma index_entry k :
  k < number_of_words idx -> entry_ok ws (bitmap_at idx k) (word_at idx k).
Proof.
  intros Hk. rewrite (ok_count idx (ib_ok ws idx Built)) in Hk.
  apply (Forall2_at _ _ _ k 0%Z EmptyString (ib_entries ws idx Built) Hk).
Qed.

Lemma index_word_bitmap k :
  k < number_of_words idx -> bitmap_of (word_at idx k) = Some (bitmap_at idx k).
Proof. intros Hk. now destruct (index_entry k Hk) as ((_ & H & _) & _). Qed.

Lemma index_word_admitted w :
  In w (unique_words idx) ->
  exists k, k < number_of_words idx /\ w = word_at idx k /\ admitted w (bitmap_at idx k).
Proof.
  intros Hw. destruct (In_nth _ _ EmptyString Hw) as (k & Hk & E).
  rewrite (ok_words idx (ib_ok ws idx Built)),
          <- (ok_count idx (ib_ok ws idx Built)) in Hk.
  exists k. split; [exact Hk|]. split; [now rewrite <- E|].
  destruct (index_entry k Hk) as (Ha & _). unfold word_at in Ha. now rewrite E in Ha.
Qed.

End IndexFacts.

(** * The statements of the specification *)

(** C10: the two flat arrays stay aligned.  Both have [number_of_words]
    entries, the bitmap at every position is the encoding of the word at
    that position, every match consists of the words at the five indices the
    search tested, and the boundaries start at 0, never decrease and end
    with the total number of entries. *)
Theorem flat_arrays_aligned ws idx :
  build_index ws = Some idx ->
  List.length (word_bitmaps idx) = number_of_words idx /\
  List.length (unique_words idx) = number_of_words idx /\
  (forall k, k < number_of_words idx ->
             bitmap_of (word_at idx k) = Some (bitmap_at idx k)) /\
  search idx = map (map (word_at idx)) (search_indices idx) /\
  List.length (word_bitmaps_boundaries idx) = List.length letter_bitmaps + 1 /\
  nth 0 (word_bitmaps_boundaries idx) 0 = 0 /\
  (forall index, index < List.length letter_bitmaps ->
                 nth index (word_bitmaps_boundaries idx) 0
                 <= nth (index + 1) (word_bitmaps_boundaries idx) 0) /\
  last (word_bitmaps_boundaries idx) 0 = number_of_words idx.
Proof.
  intros H. apply build_index_built in H. pose proof (ib_ok ws idx H) as OK.
  repeat split.
  - symmetry. apply (ok_count idx OK).
  - rewrite (ok_words idx OK). symmetry. apply (ok_count idx OK).
  - apply (index_word_bitmap ws idx H).
  - apply search_words_of_indices.
  - apply (ok_bounds idx OK).
  - apply (ok_first idx OK).
  - apply (ok_mono idx OK).
  - rewrite <- (ok_last idx OK), last_is_nth, (ok_bounds idx OK).
    unfold boundary. now rewrite Nat.add_sub.
Qed.

Lemma flat_arrays_aligned_sample :
  List.length (word_bitmaps sample_index) = number_of_words sample_index /\
  List.length (unique_words sample_index) = number_of_words sample_index /\
  (forall k, k < number_of_words sample_index ->
             bitmap_of (word_at sample_index k) = Some (bitmap_at sample_index k)) /\
  search sample_index = map (map (word_at sample_index)) (search_indices sample_index) /\
  List.length (word_bitmaps_boundaries sample_index) = List.length letter_bitmaps + 1 /\
  nth 0 (word_bitmaps_boundaries sample_index) 0 = 0 /\
  (forall index, index < List.length letter_bitmaps ->
                 nth index (word_bitmaps_boundaries sample_index) 0
                 <= nth (index + 1) (word_bitmaps_boundaries sample_index) 0) /\
  last (word_bitmaps_boundaries sample_index) 0 = number_of_words sample_index.
Proof. apply (flat_arrays_aligned sample_words sample_index). reflexivity. Defined.

(** C2: on every index the partitioner builds, the pruned search pushes
    exactly the index tuples a brute-force scan over all [i<j<a<b<c] with
    pairwise disjoint bitmaps keeps, and hence exactly the same word
    tuples. *)
Theorem pruned_search_is_brute_force ws idx :
  build_index ws = Some idx ->
  (forall t, In t (search_indices idx) <-> In t (brute_force (word_bitmaps idx))) /\
  (forall m, In m (search idx) <->
             In m (map (map (word_at idx)) (brute_force (word_bitmaps idx)))).
Proof.
  intros H. apply build_index_built in H. pose proof (ib_ok ws idx H) as OK.
  split.
  - intros t. apply (in_search_indices idx OK).
  - intros m. rewrite search_words_of_indices, !in_map_iff.
    split; intros (t & E & Ht); exists t; (split; [exact E|]);
      now apply (in_search_indices idx OK).
Qed.

Lemma pruned_search_is_brute_force_sample :
  (forall t, In t (search_indices sample_index)
             <-> In t (brute_force (word_bitmaps sample_index))) /\
  (forall m, In m (search sample_index) <->
             In m (map (map (word_at sample_index))
                       (brute_force (word_bitmaps sample_index)))).
Proof. apply (pruned_search_is_brute_force sample_words sample_index). reflexivity. Defined.


(** C6: a word whose length is not five, or whose bitmap does not have
    exactly five bits set, leaves the per-letter lists untouched and is
    reported nowhere; every word the index holds has length five and a
    stored bitmap, its own encoding, with exactly five bits set. *)
Theorem rejected_words_never_stored ws idx :
  build_index ws = Some idx ->
  (forall st w, String.length w <> WORD_LENGTH -> filter_word st w = Some st) /\
  (forall st w m, bitmap_of w = Some m -> popcount m <> WORD_LENGTH ->
                  filter_word st w = Some st) /\
  (forall w, String.length w <> WORD_LENGTH -> ~ In w (unique_words idx)) /\
  (forall w m, bitmap_of w = Some m -> popcount m <> WORD_LENGTH ->
               ~ In w (unique_words idx)) /\
  (forall k, k < number_of_words idx ->
             String.length (word_at idx k) = WORD_LENGTH /\
             bitmap_of (word_at idx k) = Some (bitmap_at idx k) /\
             popcount (bitmap_at idx k) = WORD_LENGTH).
Proof.
  intros H. apply build_index_built in H. repeat split.
  - intros st w Hw. unfold filter_word.
    now destruct (Nat.eqb_spec (String.length w) WORD_LENGTH).
  - intros st w m Hm Hp. unfold filter_word. rewrite Hm.
    destruct (negb _); [reflexivity|].
    now destruct (Nat.eqb_spec (popcount m) WORD_LENGTH).
  - intros w Hw Hin.
    destruct (index_word_admitted ws idx H w Hin) as (k & _ & _ & Hl & _). contradiction.
  - intros w m Hm Hp Hin.
    destruct (index_word_admitted ws idx H w Hin) as (k & _ & _ & _ & Hm' & Hp').
    rewrite Hm in Hm'. injection Hm' as ->. contradiction.
  - now destruct (index_entry ws idx H k) as ((? & _) & _).
  - now destruct (index_entry ws idx H k) as ((_ & ? & _) & _).
  - now destruct (index_entry ws idx H k) as ((_ & _ & ?) & _).
Qed.

Lemma rejected_words_never_stored_sample :
  ~ In "hello"%string (unique_words sample_index) /\
  ~ In "cat"%string (unique_words sample_index).
Proof.
  pose proof (rejected_words_never_stored sample_words sample_index eq_refl)
    as (_ & _ & Hlen & Hpop & _).
  split.
  - apply (Hpop "hello"%string 18576%Z); [reflexivity | vm_compute; lia].
  - apply Hlen. vm_compute. lia.
Defined.

(** C9: on the four words nymph, fjord, waltz, glyph the pipeline is
    defined and finds nothing; so it does on the empty list, and so does
    the search on every index with fewer than five entries. *)
Theorem tiny_corpus_no_match :
  five_words ["nymph"; "fjord"; "waltz"; "glyph"]%string = Some [] /\
  five_words [] = Some [] /\
  (forall ws idx, build_index ws = Some idx -> number_of_words idx < 5 -> search idx = []).
Proof.
  split; [vm_compute; reflexivity|]. split; [vm_compute; reflexivity|].
  intros ws idx H Hn. apply build_index_built in H.
  apply search_few_words; [apply (ib_ok ws idx H) | exact Hn].
Qed.

Lemma tiny_corpus_no_match_sample : search tiny_index = [].
Proof.
  apply (proj2 (proj2 tiny_corpus_no_match) tiny_words tiny_index).
  - reflexivity.
  - vm_compute. lia.
Defined.

(** * Which words reach a list *)

Lemma disjoint_from_all m l :
  (forall lb, In lb l -> Z.land m lb = 0%Z) <-> Z.land m (fold_right Z.lor 0%Z l) = 0%Z.
Proof.
  induction l as [|x l IH]; simpl.
  - split; [intros _; apply Z.land_0_r | intros _ lb []].
  - rewrite Z.land_lor_distr_r, Z.lor_eq_0_iff, <- IH. split.
    + intros H. split; [apply H; now left | intros lb Hlb; apply H; now right].
    + intros (Hx & Hl) lb [<-|Hlb]; [exact Hx | now apply Hl].
Qed.

(** A bitmap reaches no list exactly when it holds no pivot letter and no
    letter from a to p: the letters left are q, v, w, x, y, z. *)
Lemma bucket_of_none m : bucket_of m = None <-> Z.land m 2031615 = 0%Z.
Proof.
  unfold bucket_of. rewrite first_hit_none, disjoint_from_all. reflexivity.
Qed.

(** Every other admitted word is filed once, in the list of the first
    entry of [letter_bitmaps] its bitmap meets. *)
Lemma admitted_word_filed ws idx w m :
  build_index ws = Some idx -> In w ws -> admitted w m ->
  Z.land m 2031615 <> 0%Z ->
  exists index k,
    bucket_of m = Some index /\
    (boundary idx index <= k < boundary idx (index + 1)) /\
    bitmap_at idx k = m /\
    (forall k', k' < number_of_words idx -> bitmap_at idx k' = m -> k' = k).
Proof.
  intros H Hw Ha Hm. apply build_index_built in H. pose proof (ib_ok ws idx H) as OK.
  assert (Hin : In m (word_bitmaps idx)).
  { apply (ib_members ws idx H). exists w. split; [exact Hw|]. split; [exact Ha|].
    now rewrite bucket_of_none. }
  destruct (In_nth _ _ 0%Z Hin) as (k & Hk & Ek). fold (bitmap_at idx k) in Ek.
  rewrite <- (ok_count idx OK) in Hk.
  destruct (bucket_exists idx OK k Hk) as (index & Hi & Hr).
  exists index, k. split; [|split; [exact Hr|split; [exact Ek|]]].
  - rewrite <- Ek. now apply (ok_bucket idx OK).
  - intros k' Hk' Ek'.
    apply (proj1 (NoDup_nth (word_bitmaps idx) 0%Z) (ib_nodup ws idx H));
      rewrite <- ?(ok_count idx OK); try assumption.
    unfold bitmap_at in Ek, Ek'. congruence.
Qed.

(** C1 at the input "vwxyz": the word has length five and five distinct
    lowercase letters, none of them a pivot; its bitmap misses the last
    entry [0xffff] of [letter_bitmaps] as well, so the loop of [place] runs
    off the end and the word reaches no list. *)
Theorem vwxyz_reaches_no_list :
  String.length "vwxyz" = WORD_LENGTH /\
  forallb is_lowercase (list_ascii_of_string "vwxyz") = true /\
  bitmap_of "vwxyz" = Some 65011712%Z /\
  popcount 65011712 = WORD_LENGTH /\
  bucket_of 65011712 = None /\
  build_index ["vwxyz"%string]
  = Some (mkSearchIndex 0 [] [] [0; 0; 0; 0; 0; 0; 0; 0; 0; 0; 0; 0; 0; 0]).
Proof. repeat split; vm_compute; reflexivity. Qed.


(** * The shift of the encoding step *)

Lemma char_shifts_map word :
  char_shifts word = map shift_amount (list_ascii_of_string word).
Proof. induction word as [|c word IH]; simpl; [reflexivity | now rewrite IH]. Qed.

Lemma lowercase_shift c :
  is_lowercase c = true -> (0 <= shift_amount c < 26)%Z.
Proof.
  unfold is_lowercase, shift_amount. rewrite andb_true_iff, !Z.leb_le.
  change (char_code "a") with 97%Z. change (char_code "z") with 122%Z. lia.
Qed.

(** An undefined shift anywhere in the word leaves the bitmap undefined. *)
Lemma accumulate_bitmap_defined word bitmap :
  accumulate_bitmap word bitmap <> None <->
  Forall (fun s => (0 <= s < 31)%Z) (char_shifts word).
Proof.
  revert bitmap. induction word as [|c word IH]; intros bitmap; simpl.
  - split; [constructor | discriminate].
  - rewrite Forall_cons_iff. unfold shl_one.
    destruct (Z.leb_spec 0 (shift_amount c)) as [Hlo|Hlo];
      destruct (Z.ltb_spec (shift_amount c) 31) as [Hhi|Hhi]; simpl.
    + rewrite IH. split; [intros Hr; split; [lia | exact Hr] | tauto].
    + split; [tauto | intros (? & _); lia].
    + split; [tauto | intros (? & _); lia].
    + split; [tauto | intros (? & _); lia].
Qed.

Lemma lor_below x y n :
  (0 <= n -> 0 <= x < 2 ^ n -> 0 <= y < 2 ^ n -> 0 <= Z.lor x y < 2 ^ n)%Z.
Proof.
  intros Hn Hx Hy.
  assert (E : Z.lor x y = (Z.lor x y mod 2 ^ n)%Z).
  { rewrite <- Z.land_ones, Z.land_lor_distr_l, !Z.land_ones by exact Hn.
    now rewrite !Z.mod_small. }
  rewrite E. apply Z.mod_pos_bound. now apply Z.pow_pos_nonneg.
Qed.

Lemma accumulate_bitmap_range word bitmap m :
  (0 <= bitmap < 2 ^ 31)%Z -> accumulate_bitmap word bitmap = Some m ->
  (0 <= m < 2 ^ 31)%Z.
Proof.
  revert bitmap. induction word as [|c word IH]; intros bitmap Hb H; simpl in H.
  - now injection H as <-.
  - unfold shl_one in H.
    destruct (Z.leb_spec 0 (shift_amount c)) as [Hlo|Hlo];
      destruct (Z.ltb_spec (shift_amount c) 31) as [Hhi|Hhi];
      simpl in H; try discriminate.
    assert (Hbit : (0 <= Z.shiftl 1 (shift_amount c) < 2 ^ 31)%Z).
    { rewrite Z.shiftl_1_l. split; [apply Z.pow_nonneg; lia|].
      apply Z.pow_lt_mono_r; lia. }
    apply (IH _ (lor_below _ _ 31 ltac:(lia) Hb Hbit) H).
Qed.

(** A defined bitmap fits the [int] accumulator and the [uint32_t]
    parameter alike: nothing is lost on either conversion. *)
Lemma bitmap_of_range word m : bitmap_of word = Some m -> (0 <= m < 2 ^ 31)%Z.
Proof. apply accumulate_bitmap_range. lia. Qed.

(** C5, as the code has it: there is no validation.  A word that fails the
    length test is not encoded at all; for a word of length five the amount
    [c - 'a'] is shifted by for every character as it stands.  That amount
    lies in 0..25 when the word is made of lowercase letters, and is
    negative for each character below ['a'], uppercase letters among them;
    the bitmap is then undefined. *)
Theorem encoding_shifts_unvalidated :
  (forall word, String.length word <> WORD_LENGTH -> shifts_used word = []) /\
  (forall word, String.length word = WORD_LENGTH ->
                shifts_used word = map shift_amount (list_ascii_of_string word)) /\
  (forall word, forallb is_lowercase (list_ascii_of_string word) = true ->
                Forall (fun s => (0 <= s < 26)%Z) (shifts_used word)) /\
  (forall word c, String.length word = WORD_LENGTH ->
                  In c (list_ascii_of_string word) ->
                  (char_code c < char_code "a"%char)%Z ->
                  (exists s, In s (shifts_used word) /\ (s < 0)%Z) /\
                  bitmap_of word = None).
Proof.
  split; [|split; [|split]].
  - intros word H. unfold shifts_used.
    now destruct (Nat.eqb_spec (String.length word) WORD_LENGTH).
  - intros word H. unfold shifts_used. rewrite H. simpl. apply char_shifts_map.
  - intros word H. unfold shifts_used. destruct (_ =? _); [|constructor].
    rewrite char_shifts_map. apply Forall_forall. intros s Hs.
    apply in_map_iff in Hs. destruct Hs as (c & <- & Hc).
    apply lowercase_shift. rewrite forallb_forall in H. now apply H.
  - intros word c Hlen Hin Hc. split.
    + exists (shift_amount c). split.
      * unfold shifts_used. rewrite Hlen. simpl. rewrite char_shifts_map. now apply in_map.
      * unfold shift_amount. lia.
    + destruct (bitmap_of word) as [m|] eqn:E; [|reflexivity]. exfalso.
      assert (Hd : accumulate_bitmap word 0 <> None) by (unfold bitmap_of in E; congruence).
      apply accumulate_bitmap_defined in Hd. rewrite char_shifts_map in Hd.
      rewrite Forall_forall in Hd. specialize (Hd (shift_amount c) (in_map _ _ _ Hin)).
      unfold shift_amount in Hd. lia.
Qed.

Lemma encoding_shifts_unvalidated_sample :
  (exists s, In s (shifts_used "Hello") /\ (s < 0)%Z) /\ bitmap_of "Hello" = None.
Proof.
  apply (proj2 (proj2 (proj2 encoding_shifts_unvalidated)) "Hello"%string "H"%char).
  - reflexivity.
  - simpl. now left.
  - reflexivity.
Defined.

(** C5 as the specification words it fails: "Hello" holds an uppercase
    letter, and the shift amount the encoding step uses for it is -25. *)
Lemma uppercase_shift_out_of_range :
  ~ (forall word,
        (exists c, In c (list_ascii_of_string word) /\ is_lowercase c = false) ->
        Forall (fun s => (0 <= s < 32)%Z) (shifts_used word)).
Proof.
  intros H. specialize (H "Hello"%string).
  assert (Hc : exists c, In c (list_ascii_of_string "Hello") /\ is_lowercase c = false).
  { exists "H"%char. split; [simpl; now left | reflexivity]. }
  apply H in Hc. apply Forall_inv in Hc. vm_compute in Hc. destruct Hc as (Hc & _).
  now apply Hc.
Qed.


(** * Letters covered by a match *)

Lemma disjoint_from_union m l :
  forallb (fun m' => (Z.land m m' =? 0)%Z) l = true ->
  Z.land m (fold_right Z.lor 0%Z l) = 0%Z.
Proof.
  induction l as [|x l IH]; simpl; [intros _; apply Z.land_0_r|].
  rewrite andb_true_iff, Z.eqb_eq. intros (Hx & Hl).
  rewrite Z.land_lor_distr_r, Hx, (IH Hl). reflexivity.
Qed.

Lemma popcount_union ms :
  pairwise_disjointb ms = true ->
  popcount (fold_right Z.lor 0%Z ms) = list_sum (map popcount ms).
Proof.
  induction ms as [|m ms IH]; simpl; [reflexivity|].
  rewrite andb_true_iff. intros (Hm & Hms).
  rewrite Bits.popcount_lor by (now apply disjoint_from_union). now rewrite IH.
Qed.

Lemma words_bitmaps ws idx t :
  index_built ws idx ->
  Forall (fun k => k < number_of_words idx) t ->
  map bitmap_of (map (word_at idx) t) = map Some (map (bitmap_at idx) t).
Proof.
  intros Built. induction 1 as [|k t Hk Ht IH]; simpl; [reflexivity|].
  now rewrite IH, (index_word_bitmap ws idx Built k Hk).
Qed.

(** C3: every match consists of the words at five indices the search
    pushed; the bitmaps stored there are the encodings of the five words,
    they are pairwise disjoint, and their bitwise OR has exactly 25 bits
    set. *)
Theorem match_covers_25_letters ws idx m :
  build_index ws = Some idx ->
  In m (search idx) ->
  exists t,
    In t (search_indices idx) /\
    m = map (word_at idx) t /\
    map bitmap_of m = map Some (map (bitmap_at idx) t) /\
    pairwise_disjointb (map (bitmap_at idx) t) = true /\
    popcount (fold_right Z.lor 0%Z (map (bitmap_at idx) t)) = 25.
Proof.
  intros H Hm. apply build_index_built in H. pose proof (ib_ok ws idx H) as OK.
  rewrite search_words_of_indices in Hm. apply in_map_iff in Hm.
  destruct Hm as (t & <- & Ht). exists t. split; [exact Ht|]. split; [reflexivity|].
  pose proof Ht as Hin. unfold search_indices in Hin.
  apply (in_search_with idx OK) in Hin.
  destruct Hin as (i & j & a & b & c & Hij & Hja & Hab & Hbc & Hc & D & ->).
  split; [|split; [exact D|]].
  - apply (words_bitmaps ws idx _ H). repeat constructor; lia.
  - rewrite (popcount_union _ D). simpl.
    rewrite !(ok_popcount idx OK) by lia. reflexivity.
Qed.

Lemma match_covers_25_letters_sample :
  exists t,
    In t (search_indices sample_index) /\
    ["vibex"; "waltz"; "fjord"; "nymph"; "gucks"]%string = map (word_at sample_index) t /\
    map bitmap_of ["vibex"; "waltz"; "fjord"; "nymph"; "gucks"]%string
    = map Some (map (bitmap_at sample_index) t) /\
    pairwise_disjointb (map (bitmap_at sample_index) t) = true /\
    popcount (fold_right Z.lor 0%Z (map (bitmap_at sample_index) t)) = 25.
Proof.
  apply (match_covers_25_letters sample_words sample_index).
  - reflexivity.
  - vm_compute. now left.
Defined.


(** * No tuple is pushed twice *)

Section NoRepeat.

Lemma NoDup_flat_map_disj {A B} (f : A -> list B) l :
  NoDup l ->
  (forall x, In x l -> NoDup (f x)) ->
  (forall x y z, In x l -> In y l -> In z (f x) -> In z (f y) -> x = y) ->
  NoDup (flat_map f l).
Proof.
  induction 1 as [|x l Hx Hl IH]; intros Hf Hd; simpl; [constructor|].
  apply NoDup_app.
  - apply Hf. now left.
  - apply IH.
    + intros y Hy. apply Hf. now right.
    + intros y1 y2 z H1 H2. apply Hd; now right.
  - intros z Hz Hc. apply in_flat_map in Hc. destruct Hc as (y & Hy & Hzy).
    assert (x = y) by (apply (Hd x y z); auto; [now left | now right]).
    subst. contradiction.
Qed.

Lemma above_NoDup k n : NoDup (above k n).
Proof. apply seq_NoDup. Qed.

Context {M : Type} (emit3 : nat -> nat -> nat -> M) (used_ij : Z) (cb : list Z).

Lemma in_triple_c a b x :
  In x (triple_c emit3 used_ij cb a b) ->
  exists c, b < c /\ c < List.length cb /\ x = emit3 a b c.
Proof.
  unfold triple_c. intros H. apply in_flat_map in H. destruct H as (c & Hc & H).
  apply in_above in Hc. destruct (negb _); [contradiction|].
  destruct H as [<-|[]]. exists c. repeat split; lia.
Qed.

Lemma in_triple_b a x :
  In x (triple_b emit3 used_ij cb a) ->
  exists b c, a < b /\ b < c /\ c < List.length cb /\ x = emit3 a b c.
Proof.
  unfold triple_b. intros H. apply in_flat_map in H. destruct H as (b & Hb & H).
  apply in_above in Hb. destruct (negb _); [contradiction|].
  apply in_triple_c in H. destruct H as (c & ? & ? & ->).
  exists b, c. repeat split; lia.
Qed.

Hypothesis emit3_inj :
  forall a b c a' b' c',
    c < List.length cb -> c' < List.length cb ->
    a < b -> b < c -> a' < b' -> b' < c' ->
    emit3 a b c = emit3 a' b' c' -> a = a' /\ b = b' /\ c = c'.

Lemma triple_list_NoDup : NoDup (triple_list emit3 used_ij cb).
Proof.
  unfold triple_list. apply NoDup_flat_map_disj.
  - apply seq_NoDup.
  - intros a _. unfold triple_b. apply NoDup_flat_map_disj.
    + apply above_NoDup.
    + intros b Hb. apply in_above in Hb. destruct (negb _); [constructor|].
      unfold triple_c. apply NoDup_flat_map_disj.
      * apply above_NoDup.
      * intros c _. destruct (negb _); repeat constructor. intros [].
      * intros c c' z Hc Hc' Hz Hz'. apply in_above in Hc, Hc'.
        destruct (negb _); [contradiction|]. destruct (negb _); [contradiction|].
        destruct Hz as [<-|[]]. destruct Hz' as [E|[]].
        symmetry in E. apply emit3_inj in E; try lia.
    + intros b b' z Hb Hb' Hz Hz'. apply in_above in Hb, Hb'.
      destruct (negb _); [contradiction|]. destruct (negb _); [contradiction|].
      apply in_triple_c in Hz, Hz'.
      destruct Hz as (c & ? & ? & ->). destruct Hz' as (c' & ? & ? & E).
      apply emit3_inj in E; try lia.
  - intros a a' z _ _ Hz Hz'. apply in_triple_b in Hz, Hz'.
    destruct Hz as (b & c & ? & ? & ? & ->). destruct Hz' as (b' & c' & ? & ? & ? & E).
    apply emit3_inj in E; try lia.
Qed.

End NoRepeat.

Section NoRepeatSearch.

Variable idx : SearchIndex.
Hypothesis OK : index_ok idx.

Lemma in_match_pair i j t :
  In t (match_pair idx (fun i j a b c => [i; j; a; b; c]) i j) ->
  nth 0 t 0 = i /\ nth 1 t 0 = j.
Proof.
  unfold match_pair. destruct (negb _); [contradiction|]. cbv zeta.
  intros H. apply in_triple_list in H.
  destruct H as (a & b & c & _ & _ & _ & _ & _ & ->). now split.
Qed.

Lemma match_pair_NoDup i j :
  NoDup (match_pair idx (fun i j a b c => [i; j; a; b; c]) i j).
Proof.
  unfold match_pair. destruct (negb _); [constructor|]. cbv zeta.
  set (ci := candidate_list idx j _).
  assert (Hci : NoDup ci) by (apply increasing_NoDup, candidate_list_increasing, OK).
  apply triple_list_NoDup. rewrite length_map.
  intros a b c a' b' c' Hc Hc' Hab Hbc Hab' Hbc' E.
  injection E as Ea Eb Ec.
  apply (proj1 (NoDup_nth ci 0) Hci) in Ea, Eb, Ec; try lia.
Qed.

Lemma search_indices_NoDup : NoDup (search_indices idx).
Proof.
  unfold search_indices. rewrite search_with_eq. unfold match_list.
  apply NoDup_flat_map_disj.
  - apply seq_NoDup.
  - intros i _. unfold match_j. apply NoDup_flat_map_disj.
    + apply above_NoDup.
    + intros j _. apply match_pair_NoDup.
    + intros j j' t _ _ Ht Ht'. apply in_match_pair in Ht, Ht'. lia.
  - intros i i' t _ _ Ht Ht'. unfold match_j in Ht, Ht'.
    apply in_flat_map in Ht, Ht'.
    destruct Ht as (j & _ & Ht). destruct Ht' as (j' & _ & Ht').
    apply in_match_pair in Ht, Ht'. lia.
Qed.

End NoRepeatSearch.

Lemma increasing_perm_eq l1 l2 :
  StronglySorted lt l1 -> StronglySorted lt l2 -> Permutation l1 l2 -> l1 = l2.
Proof.
  intros H1. revert l2. induction H1 as [|a l1 H1 IH Ha]; intros l2 H2 P.
  - apply Permutation_nil in P. now subst.
  - destruct H2 as [|b l2 H2 Hb].
    + apply Permutation_sym, Permutation_nil in P. discriminate.
    + rewrite Forall_forall in Ha, Hb.
      assert (a = b).
      { destruct (Nat.eq_dec a b) as [E|E]; [exact E|].
        assert (In a (b :: l2)) as [Hab|Hab]
            by (apply (Permutation_in _ P); now left); [congruence|].
        assert (In b (a :: l1)) as [Hba|Hba]
            by (apply (Permutation_in _ (Permutation_sym P)); now left); [congruence|].
        specialize (Ha b Hba). specialize (Hb a Hab). lia. }
      subst b. f_equal. apply IH; [exact H2|]. now apply Permutation_cons_inv in P.
Qed.

(** C4: every match holds the words at five indices [i < j < a < b < c]
    of the search index, so no index occurs twice in a match and no two
    matches the search pushes are permutations of one index set. *)
Theorem match_indices_increasing ws idx :
  build_index ws = Some idx ->
  search idx = map (map (word_at idx)) (search_indices idx) /\
  (forall t, In t (search_indices idx) ->
             exists i j a b c,
               t = [i; j; a; b; c] /\
               i < j /\ j < a /\ a < b /\ b < c /\ c < number_of_words idx) /\
  (forall t, In t (search_indices idx) -> NoDup t) /\
  (forall p q, p < q -> q < List.length (search_indices idx) ->
               ~ Permutation (nth p (search_indices idx) []) (nth q (search_indices idx) [])).
Proof.
  intros H. apply build_index_built in H. pose proof (ib_ok ws idx H) as OK.
  assert (Hs : forall t, In t (search_indices idx) -> StronglySorted lt t).
  { intros t Ht. apply (search_indices_increasing idx OK) in Ht.
    destruct Ht as (i & j & a & b & c & -> & ?).
    repeat constructor; lia. }
  split; [apply search_words_of_indices|]. split; [apply (search_indices_increasing idx OK)|].
  split.
  - intros t Ht. apply increasing_NoDup, Hs, Ht.
  - intros p q Hpq Hq P.
    apply increasing_perm_eq in P; try (apply Hs, nth_In; lia).
    apply (proj1 (NoDup_nth _ []) (search_indices_NoDup idx OK)) in P; lia.
Qed.

Lemma match_indices_increasing_sample :
  search sample_index = map (map (word_at sample_index)) (search_indices sample_index) /\
  (forall t, In t (search_indices sample_index) ->
             exists i j a b c,
               t = [i; j; a; b; c] /\
               i < j /\ j < a /\ a < b /\ b < c /\ c < number_of_words sample_index) /\
  (forall t, In t (search_indices sample_index) -> NoDup t) /\
  (forall p q, p < q -> q < List.length (search_indices sample_index) ->
               ~ Permutation (nth p (search_indices sample_index) [])
                             (nth q (search_indices sample_index) [])).
Proof. apply (match_indices_increasing sample_words sample_index). reflexivity. Defined.


(** * Reordering the input *)

Section Reorder.

Lemma forallb_perm {A} (p : A -> bool) l l' :
  Permutation l l' -> forallb p l = true -> forallb p l' = true.
Proof.
  intros P. rewrite !forallb_forall. intros H x Hx.
  apply H. apply (Permutation_in _ (Permutation_sym P) Hx).
Qed.

Lemma pairwise_disjointb_perm ms ms' :
  Permutation ms ms' -> pairwise_disjointb ms = true -> pairwise_disjointb ms' = true.
Proof.
  induction 1 as [|x l l' P IH|x y l|l l' l'' P1 IH1 P2 IH2]; simpl.
  - reflexivity.
  - rewrite !andb_true_iff. intros (Hx & Hl). split; [|now apply IH].
    now apply (forallb_perm _ l l').
  - rewrite !andb_true_iff, !Z.eqb_eq. rewrite (Z.land_comm x y). tauto.
  - intros H. now apply IH2, IH1.
Qed.

Lemma disjoint_NoDup ms :
  pairwise_disjointb ms = true -> Forall (fun m => m <> 0%Z) ms -> NoDup ms.
Proof.
  induction ms as [|m ms IH]; simpl; [constructor|].
  rewrite andb_true_iff. intros (Hm & Hms) Hnz.
  apply Forall_cons_iff in Hnz. destruct Hnz as (Hm0 & Hnz).
  constructor; [|now apply IH].
  intros Hin. rewrite forallb_forall in Hm. specialize (Hm m Hin).
  apply Z.eqb_eq in Hm. rewrite Z.land_diag in Hm. contradiction.
Qed.

(** Members of a list can be read back from it by index. *)
Lemma positions_of {A} (l : list A) d ms :
  (forall x, In x ms -> In x l) ->
  exists t, map (fun k => nth k l d) t = ms /\ Forall (fun k => k < List.length l) t.
Proof.
  induction ms as [|m ms IH]; intros H.
  - exists []. split; [reflexivity | constructor].
  - destruct IH as (t & Et & Ft); [intros x Hx; apply H; now right|].
    destruct (In_nth l m d (H m (or_introl eq_refl))) as (k & Hk & Ek).
    exists (k :: t). split; [simpl; now rewrite Ek, Et | now constructor].
Qed.

Lemma insert_increasing a l :
  StronglySorted lt l -> ~ In a l ->
  exists l', Permutation (a :: l) l' /\ StronglySorted lt l'.
Proof.
  induction 1 as [|b l Hl IH Hb]; intros Ha.
  - exists [a]. split; [reflexivity | repeat constructor].
  - destruct (Nat.lt_ge_cases a b) as [Hab|Hab].
    + exists (a :: b :: l). split; [reflexivity|].
      constructor; [now constructor|]. constructor; [exact Hab|].
      rewrite Forall_forall in *. intros x Hx. specialize (Hb x Hx). lia.
    + destruct IH as (l' & P & Hl'); [intros Hin; apply Ha; now right|].
      exists (b :: l'). split.
      * rewrite perm_swap. now constructor.
      * constructor; [exact Hl'|]. rewrite Forall_forall in *. intros x Hx.
        apply (Permutation_in _ (Permutation_sym P)) in Hx. destruct Hx as [<-|Hx].
        -- assert (a <> b) by (intros ->; apply Ha; now left). lia.
        -- now apply Hb.
Qed.

Lemma sort_exists l :
  NoDup l -> exists l', Permutation l l' /\ StronglySorted lt l'.
Proof.
  induction 1 as [|a l Ha Hl IH].
  - exists []. split; [reflexivity | constructor].
  - destruct IH as (l1 & P1 & S1).
    destruct (insert_increasing a l1 S1) as (l2 & P2 & S2).
    + intros Hin. apply Ha. apply (Permutation_in _ (Permutation_sym P1) Hin).
    + exists l2. split; [|exact S2].
      transitivity (a :: l1); [now constructor | exact P2].
Qed.

Variable idx : SearchIndex.
Hypothesis OK : index_ok idx.

(** The tuples the search pushes, without naming their five components. *)
Lemma in_search_indices_sorted t :
  In t (search_indices idx) <->
  List.length t = 5 /\ StronglySorted lt t /\
  Forall (fun k => k < number_of_words idx) t /\
  pairwise_disjointb (map (bitmap_at idx) t) = true.
Proof.
  unfold search_indices. rewrite (in_search_with idx OK). split.
  - intros (i & j & a & b & c & ? & ? & ? & ? & ? & D & ->).
    split; [reflexivity|]. split; [repeat constructor; lia|].
    split; [repeat constructor; lia | exact D].
  - intros (Hlen & Hs & Hf & D).
    destruct t as [|i [|j [|a [|b [|c [|]]]]]]; try discriminate.
    exists i, j, a, b, c.
    apply StronglySorted_inv in Hs. destruct Hs as (Hs & Hi).
    apply StronglySorted_inv in Hs. destruct Hs as (Hs & Hj).
    apply StronglySorted_inv in Hs. destruct Hs as (Hs & Ha).
    apply StronglySorted_inv in Hs. destruct Hs as (Hs & Hb).
    apply Forall_inv in Hi, Hj, Ha, Hb.
    assert (c < number_of_words idx).
    { rewrite Forall_forall in Hf. apply Hf. simpl. tauto. }
    repeat split; try assumption.
Qed.

End Reorder.

(** A match of one index reappears, up to the order of its bitmaps, in
    every index that holds the same bitmaps. *)
Lemma search_transfer ws idx ws' idx' m :
  index_built ws idx -> index_built ws' idx' ->
  (forall x, In x (word_bitmaps idx) -> In x (word_bitmaps idx')) ->
  In m (search idx) ->
  exists m', In m' (search idx') /\ Permutation (map bitmap_of m) (map bitmap_of m').
Proof.
  intros B B' Hsub Hm.
  pose proof (ib_ok ws idx B) as OK. pose proof (ib_ok ws' idx' B') as OK'.
  rewrite search_words_of_indices in Hm. apply in_map_iff in Hm.
  destruct Hm as (t & <- & Ht).
  apply (in_search_indices_sorted idx OK) in Ht. destruct Ht as (Hlen & _ & Hf & D).
  set (ms := map (bitmap_at idx) t) in *.
  assert (Hin : forall x, In x ms -> In x (word_bitmaps idx')).
  { intros x Hx. apply Hsub. apply in_map_iff in Hx. destruct Hx as (k & <- & Hk).
    apply nth_In. rewrite <- (ok_count idx OK).
    rewrite Forall_forall in Hf. now apply Hf. }
  assert (Hnz : Forall (fun x => x <> 0%Z) ms).
  { apply Forall_forall. intros x Hx. apply in_map_iff in Hx.
    destruct Hx as (k & <- & Hk). rewrite Forall_forall in Hf.
    pose proof (ok_popcount idx OK k (Hf k Hk)) as Hp.
    intros E. rewrite E in Hp. discriminate. }
  destruct (positions_of (word_bitmaps idx') 0%Z ms Hin) as (t0 & Et0 & Ft0).
  fold (bitmap_at idx') in Et0.
  assert (Hnd : NoDup t0).
  { apply (NoDup_map_inv (bitmap_at idx')). rewrite Et0. now apply disjoint_NoDup. }
  destruct (sort_exists t0 Hnd) as (t' & P & S').
  assert (Pm : Permutation ms (map (bitmap_at idx') t')).
  { rewrite <- Et0. now apply Permutation_map. }
  assert (Ft' : Forall (fun k => k < number_of_words idx') t').
  { rewrite (ok_count idx' OK'). apply Forall_forall. intros k Hk.
    rewrite Forall_forall in Ft0. apply Ft0.
    apply (Permutation_in _ (Permutation_sym P) Hk). }
  exists (map (word_at idx') t'). split.
  - rewrite search_words_of_indices. apply in_map.
    apply (in_search_indices_sorted idx' OK'). repeat split; try assumption.
    + rewrite <- (Permutation_length P), <- (length_map (bitmap_at idx') t0), Et0.
      unfold ms. now rewrite length_map.
    + now apply (pairwise_disjointb_perm ms).
  - rewrite (words_bitmaps ws idx t B Hf), (words_bitmaps ws' idx' t' B' Ft').
    fold ms. now apply Permutation_map.
Qed.

Lemma same_bitmaps ws idx ws' idx' :
  Permutation ws ws' -> index_built ws idx -> index_built ws' idx' ->
  forall x, In x (word_bitmaps idx) -> In x (word_bitmaps idx').
Proof.
  intros P B B' x Hx. apply (ib_members ws idx B) in Hx.
  destruct Hx as (w & Hw & Ha & Hb).
  apply (ib_members ws' idx' B'). exists w. split; [|now split].
  apply (Permutation_in _ P Hw).
Qed.

(** C8 as the code has it: a reordered input yields the same matches up to
    the order of the words inside a match and up to which of several words
    with one letter set is reported: each match of one run has a match of
    the other run with the same five bitmaps. *)
Theorem reordered_input_same_bitmaps ws ws' r :
  Permutation ws ws' ->
  five_words ws = Some r ->
  exists r',
    five_words ws' = Some r' /\
    (forall m, In m r ->
               exists m', In m' r' /\ Permutation (map bitmap_of m) (map bitmap_of m')) /\
    (forall m', In m' r' ->
                exists m, In m r /\ Permutation (map bitmap_of m) (map bitmap_of m')).
Proof.
  intros P H. unfold five_words in *.
  destruct (build_index ws) as [idx|] eqn:Hb; [|discriminate]. injection H as <-.
  assert (Hd : exists idx', build_index ws' = Some idx').
  { apply build_index_defined. apply (Permutation_Forall P).
    apply build_index_defined. eauto. }
  destruct Hd as (idx' & Hb'). rewrite Hb'. exists (search idx'). split; [reflexivity|].
  apply build_index_built in Hb, Hb'.
  split.
  - intros m Hm. apply (search_transfer ws idx ws' idx' m Hb Hb'); [|exact Hm].
    now apply (same_bitmaps ws idx ws' idx').
  - intros m' Hm'.
    destruct (search_transfer ws' idx' ws idx m' Hb' Hb) as (m & Hm & Pm); [|exact Hm'|].
    + apply (same_bitmaps ws' idx' ws idx); [now apply Permutation_sym | assumption..].
    + exists m. split; [exact Hm | now apply Permutation_sym].
Qed.

Lemma reordered_input_same_bitmaps_sample :
  exists r',
    five_words anagram_words_swapped = Some r' /\
    (forall m, In m [["vibex"; "waltz"; "fjord"; "nymph"; "gucks"]%string] ->
               exists m', In m' r' /\ Permutation (map bitmap_of m) (map bitmap_of m')) /\
    (forall m', In m' r' ->
                exists m, In m [["vibex"; "waltz"; "fjord"; "nymph"; "gucks"]%string] /\
                          Permutation (map bitmap_of m) (map bitmap_of m')).
Proof.
  apply (reordered_input_same_bitmaps anagram_words anagram_words_swapped).
  - apply perm_swap.
  - vm_compute. reflexivity.
Defined.

(** C8 as the specification words it fails: swapping "fjord" and "fjodr"
    at the head of the input replaces the one by the other in the only
    match, so the two runs report different words. *)
Lemma reordered_input_other_words :
  ~ (forall ws ws' r r',
        Permutation ws ws' ->
        five_words ws = Some r -> five_words ws' = Some r' ->
        forall m, In m r <-> In m r').
Proof.
  intros H.
  specialize (H anagram_words anagram_words_swapped
                [["vibex"; "waltz"; "fjord"; "nymph"; "gucks"]%string]
                [["vibex"; "waltz"; "fjodr"; "nymph"; "gucks"]%string]
                (perm_swap _ _ _) eq_refl eq_refl
                ["vibex"; "waltz"; "fjord"; "nymph"; "gucks"]%string).
  destruct H as (H & _). destruct (H (or_introl eq_refl)) as [E|[]]. discriminate.
Qed.

(** The order of the words inside a match depends on the input order as
    well: two words of one list swap places in the match when they swap
    places in the input. *)
Example reordered_input_other_order :
  five_words ["bcfgj"; "kmpqv"; "adehi"; "lnors"; "tuwxy"]%string
  = Some [["adehi"; "tuwxy"; "lnors"; "bcfgj"; "kmpqv"]%string] /\
  five_words ["kmpqv"; "bcfgj"; "adehi"; "lnors"; "tuwxy"]%string
  = Some [["adehi"; "tuwxy"; "lnors"; "kmpqv"; "bcfgj"]%string].
Proof. split; vm_compute; reflexivity. Qed.


(** * Further properties of the code *)

(** ** The encoding *)

Lemma shift_amount_inj c1 c2 : shift_amount c1 = shift_amount c2 -> c1 = c2.
Proof.
  unfold shift_amount, char_code. intros H.
  rewrite <- (ascii_N_embedding c1), <- (ascii_N_embedding c2). f_equal. lia.
Qed.

Lemma in_char_shifts word s :
  In s (char_shifts word) <->
  exists c, In c (list_ascii_of_string word) /\ shift_amount c = s.
Proof.
  rewrite char_shifts_map, in_map_iff. split; intros (c & H1 & H2); exists c; tauto.
Qed.

Lemma accumulate_bits word bitmap m i :
  accumulate_bitmap word bitmap = Some m ->
  Z.testbit m i = Z.testbit bitmap i || existsb (Z.eqb i) (char_shifts word).
Proof.
  revert bitmap. induction word as [|c word IH]; intros bitmap H; simpl in H.
  - injection H as <-. simpl. now rewrite orb_false_r.
  - unfold shl_one in H.
    destruct (Z.leb_spec 0 (shift_amount c)) as [Hlo|Hlo];
      destruct (Z.ltb_spec (shift_amount c) 31) as [Hhi|Hhi];
      simpl in H; try discriminate.
    rewrite (IH _ H), Z.lor_spec, Z.shiftl_1_l, Z.pow2_bits_eqb by exact Hlo.
    simpl. rewrite (Z.eqb_sym i). now rewrite orb_assoc.
Qed.

Lemma bitmap_bit word m i :
  bitmap_of word = Some m -> (Z.testbit m i = true <-> In i (char_shifts word)).
Proof.
  intros H. rewrite (accumulate_bits word 0 m i H), Z.bits_0. simpl.
  rewrite existsb_exists. split.
  - intros (s & Hs & E). apply Z.eqb_eq in E. now subst.
  - intros Hi. exists i. split; [exact Hi | apply Z.eqb_refl].
Qed.

Lemma bitmap_shifts_range word m :
  bitmap_of word = Some m -> Forall (fun s => (0 <= s < 31)%Z) (char_shifts word).
Proof.
  intros H. apply (accumulate_bitmap_defined word 0). unfold bitmap_of in H. congruence.
Qed.

(** X1: bit [i] of the bitmap of a word is set exactly when the character
    ['a' + i] occurs in the word. *)
Theorem bitmap_bit_iff_letter word m i :
  bitmap_of word = Some m ->
  (Z.testbit m i = true <->
   exists c, In c (list_ascii_of_string word) /\ (char_code c = char_code "a" + i)%Z).
Proof.
  intros H. rewrite (bitmap_bit word m i H), in_char_shifts.
  split; intros (c & Hc & E); exists c; (split; [exact Hc|]);
    unfold shift_amount in *; lia.
Qed.

Lemma bitmap_bit_iff_letter_sample :
  Z.testbit 148008 9 = true <->
  exists c, In c (list_ascii_of_string "fjord") /\ (char_code c = char_code "a" + 9)%Z.
Proof. apply (bitmap_bit_iff_letter "fjord" 148008 9). reflexivity. Defined.

(** X2: the bitmap depends on the set of characters of the word only:
    two words made of the same characters, in whatever order and number,
    have the same bitmap, or both have none. *)
Theorem bitmap_of_same_letters w1 w2 :
  (forall c, In c (list_ascii_of_string w1) <-> In c (list_ascii_of_string w2)) ->
  bitmap_of w1 = bitmap_of w2.
Proof.
  intros Hset.
  assert (Hs : forall s, In s (char_shifts w1) <-> In s (char_shifts w2)).
  { intros s. rewrite !in_char_shifts.
    split; intros (c & Hc & E); exists c; (split; [now apply Hset | exact E]). }
  assert (Hd : bitmap_of w1 <> None <-> bitmap_of w2 <> None).
  { unfold bitmap_of. rewrite !accumulate_bitmap_defined, !Forall_forall.
    split; intros H s Hin; apply H, Hs, Hin. }
  destruct (bitmap_of w1) as [m1|] eqn:E1; destruct (bitmap_of w2) as [m2|] eqn:E2.
  - f_equal. apply Z.bits_inj'. intros n _.
    apply eq_true_iff_eq. rewrite (bitmap_bit w1 m1 n E1), (bitmap_bit w2 m2 n E2).
    apply Hs.
  - exfalso. apply (proj1 Hd); [discriminate | reflexivity].
  - exfalso. apply (proj2 Hd); [discriminate | reflexivity].
  - reflexivity.
Qed.

Lemma bitmap_of_same_letters_sample : bitmap_of "fjord" = bitmap_of "drofj".
Proof.
  apply (bitmap_of_same_letters "fjord" "drofj"). intros c. simpl. tauto.
Defined.

Lemma nodup_length_le {A} (dec : forall x y : A, {x = y} + {x <> y}) l :
  List.length (nodup dec l) <= List.length l.
Proof.
  induction l as [|a l IH]; simpl; [lia|].
  destruct (in_dec dec a l); simpl; lia.
Qed.

Lemma nodup_length_iff {A} (dec : forall x y : A, {x = y} + {x <> y}) l :
  List.length (nodup dec l) = List.length l <-> NoDup l.
Proof.
  split.
  - induction l as [|a l IH]; simpl; [constructor|].
    destruct (in_dec dec a l) as [Hin|Hin]; simpl; intros H.
    + pose proof (nodup_length_le dec l). lia.
    + constructor; [exact Hin | apply IH; lia].
  - intros H. now rewrite nodup_fixed_point.
Qed.

Lemma length_chars word : List.length (list_ascii_of_string word) = String.length word.
Proof. induction word as [|c word IH]; simpl; [reflexivity | now rewrite IH]. Qed.

(** The set bits of a bitmap, as a list, are the shift amounts of the
    distinct characters, in some order. *)
Lemma set_bits_permutation word m :
  bitmap_of word = Some m ->
  Permutation
    (filter (fun i => Z.testbit m (Z.of_nat i)) (seq 0 32))
    (map (fun c => Z.to_nat (shift_amount c))
         (nodup ascii_dec (list_ascii_of_string word))).
Proof.
  intros H. pose proof (bitmap_shifts_range word m H) as Hr.
  rewrite char_shifts_map, Forall_forall in Hr.
  assert (Hc : forall c, In c (list_ascii_of_string word) ->
                         (0 <= shift_amount c < 31)%Z).
  { intros c Hin. apply Hr. now apply in_map. }
  apply NoDup_Permutation.
  - apply NoDup_filter, seq_NoDup.
  - apply NoDup_map_NoDup_ForallPairs; [|apply NoDup_nodup].
    intros c1 c2 H1 H2 E. apply nodup_In in H1, H2.
    apply shift_amount_inj. pose proof (Hc c1 H1). pose proof (Hc c2 H2). lia.
  - intros i. rewrite filter_In, in_seq, (bitmap_bit word m _ H), in_char_shifts, in_map_iff.
    split.
    + intros (_ & c & Hin & E). exists c. split; [lia | now apply nodup_In].
    + intros (c & E & Hin). apply nodup_In in Hin. pose proof (Hc c Hin).
      split; [lia|]. exists c. split; [exact Hin | lia].
Qed.

(** X3: the population count of the bitmap of a word is the number of
    distinct characters of the word; it equals the length of the word
    exactly when no character repeats, which is what the test of line 121
    decides for a word of length five. *)
Theorem popcount_counts_distinct_letters word m :
  bitmap_of word = Some m ->
  popcount m = List.length (nodup ascii_dec (list_ascii_of_string word)) /\
  popcount m <= String.length word /\
  (popcount m = String.length word <-> NoDup (list_ascii_of_string word)).
Proof.
  intros H.
  assert (E : popcount m = List.length (nodup ascii_dec (list_ascii_of_string word))).
  { unfold popcount. rewrite (Permutation_length (set_bits_permutation word m H)).
    apply length_map. }
  rewrite E, <- length_chars. split; [reflexivity|]. split.
  - apply nodup_length_le.
  - apply nodup_length_iff.
Qed.

Lemma popcount_counts_distinct_letters_sample :
  popcount 18576 = List.length (nodup ascii_dec (list_ascii_of_string "hello")) /\
  popcount 18576 <= String.length "hello" /\
  (popcount 18576 = String.length "hello" <-> NoDup (list_ascii_of_string "hello")).
Proof. apply (popcount_counts_distinct_letters "hello" 18576). reflexivity. Defined.

(** ** The list a word is filed under *)

Lemma first_hit_intro lbs i0 bitmap k :
  k < List.length lbs ->
  Z.land bitmap (nth k lbs 0%Z) <> 0%Z ->
  (forall k', k' < k -> Z.land bitmap (nth k' lbs 0%Z) = 0%Z) ->
  first_hit lbs i0 bitmap = Some (i0 + k).
Proof.
  revert i0 k. induction lbs as [|lb lbs IH]; intros i0 k Hk Hhit Hmiss; simpl in Hk; [lia|].
  simpl. destruct k as [|k].
  - simpl in Hhit. apply Z.eqb_neq in Hhit. rewrite Hhit. simpl. f_equal. lia.
  - pose proof (Hmiss 0 ltac:(lia)) as H0. simpl in H0. rewrite H0. simpl.
    rewrite (IH (S i0) k); [f_equal; lia | lia | exact Hhit |].
    intros k' Hk'. apply (Hmiss (S k')). lia.
Qed.

Lemma pivot_letter_bit i :
  i < List.length letters ->
  (0 <= shift_amount (nth i letters "a"%char))%Z /\
  nth i letter_bitmaps 0%Z = Z.shiftl 1 (shift_amount (nth i letters "a"%char)).
Proof.
  intros H.
  do 12 (destruct i as [|i]; [split; [vm_compute; discriminate | reflexivity]|]).
  simpl in H. lia.
Qed.

Lemma letter_in_bitmap word m c :
  bitmap_of word = Some m ->
  (Z.testbit m (shift_amount c) = true <-> In c (list_ascii_of_string word)).
Proof.
  intros H. rewrite (bitmap_bit word m _ H), in_char_shifts. split.
  - intros (c' & Hc' & E). apply shift_amount_inj in E. now subst.
  - intros Hc. now exists c.
Qed.

Lemma pivot_hit word m i :
  bitmap_of word = Some m -> i < List.length letters ->
  (Z.land m (nth i letter_bitmaps 0%Z) <> 0%Z <->
   In (nth i letters "a"%char) (list_ascii_of_string word)).
Proof.
  intros H Hi. destruct (pivot_letter_bit i Hi) as (Hs & ->).
  rewrite (Bits.land_bit_nonzero m _ Hs). now apply letter_in_bitmap.
Qed.

Lemma low_sixteen_zero m :
  Z.land m 65535 = 0%Z <-> forall n, (0 <= n < 16)%Z -> Z.testbit m n = false.
Proof.
  change 65535%Z with (Z.ones 16). rewrite Bits.land_zero_bits. split.
  - intros H n Hn. specialize (H n). rewrite Z.ones_spec_low in H by exact Hn.
    now rewrite andb_true_r in H.
  - intros H n. destruct (Z.lt_ge_cases n 0) as [Hneg|Hpos].
    + now rewrite Z.testbit_neg_r.
    + destruct (Z.lt_ge_cases n 16) as [Hlo|Hhi].
      * rewrite H by lia. reflexivity.
      * rewrite Z.ones_spec_high by lia. apply andb_false_r.
Qed.

Lemma catch_all_hit word m :
  bitmap_of word = Some m ->
  (Z.land m (nth (List.length letters) letter_bitmaps 0%Z) <> 0%Z <->
   exists c, In c (list_ascii_of_string word) /\ (char_code c <= char_code "p")%Z).
Proof.
  intros H. change (nth (List.length letters) letter_bitmaps 0%Z) with 65535%Z.
  pose proof (bitmap_shifts_range word m H) as Hr.
  rewrite char_shifts_map, Forall_forall in Hr.
  split.
  - intros Hne. destruct (existsb (fun c => (char_code c <=? char_code "p")%Z)
                                  (list_ascii_of_string word)) eqn:E.
    + apply existsb_exists in E. destruct E as (c & Hc & Hle).
      exists c. split; [exact Hc | now apply Z.leb_le].
    + exfalso. apply Hne. apply low_sixteen_zero. intros n Hn.
      destruct (Z.testbit m n) eqn:Hb; [|reflexivity].
      apply (bitmap_bit word m n H), in_char_shifts in Hb. destruct Hb as (c & Hc & Es).
      assert (Hf : (char_code c <=? char_code "p")%Z = false).
      { destruct (char_code c <=? char_code "p")%Z eqn:Hle; [|reflexivity].
        assert (existsb (fun c => (char_code c <=? char_code "p")%Z)
                        (list_ascii_of_string word) = true)
          by (apply existsb_exists; eauto).
        congruence. }
      apply Z.leb_gt in Hf. unfold shift_amount in Es.
      change (char_code "a") with 97%Z in Es. change (char_code "p") with 112%Z in Hf. lia.
  - intros (c & Hc & Hle) E. rewrite low_sixteen_zero in E.
    pose proof (Hr _ (in_map shift_amount _ _ Hc)) as Hrange.
    assert (Hb : Z.testbit m (shift_amount c) = true) by (now apply (letter_in_bitmap word m c H)).
    rewrite E in Hb; [discriminate|].
    unfold shift_amount in *. change (char_code "a") with 97%Z in *.
    change (char_code "p") with 112%Z in Hle. lia.
Qed.

(** The entry of [letter_bitmaps] at which the loop of [place] stops, read
    off the characters of the word. *)
Lemma bucket_of_first_pivot word m :
  bitmap_of word = Some m ->
  (forall i, i < List.length letters ->
             In (nth i letters "a"%char) (list_ascii_of_string word) ->
             (forall k, k < i -> ~ In (nth k letters "a"%char) (list_ascii_of_string word)) ->
             bucket_of m = Some i) /\
  ((forall l, In l letters -> ~ In l (list_ascii_of_string word)) ->
   (exists c, In c (list_ascii_of_string word) /\ (char_code c <= char_code "p")%Z) ->
   bucket_of m = Some (List.length letters)) /\
  ((forall l, In l letters -> ~ In l (list_ascii_of_string word)) ->
   (forall c, In c (list_ascii_of_string word) -> (char_code "p" < char_code c)%Z) ->
   bucket_of m = None).
Proof.
  intros H.
  assert (Hmiss : forall k, k < List.length letters ->
                            ~ In (nth k letters "a"%char) (list_ascii_of_string word) ->
                            Z.land m (nth k letter_bitmaps 0%Z) = 0%Z).
  { intros k Hk Hn. destruct (Z.eq_dec (Z.land m (nth k letter_bitmaps 0%Z)) 0) as [E|E];
      [exact E|]. exfalso. now apply Hn, (pivot_hit word m k H Hk). }
  split; [|split].
  - intros i Hi Hin Hfirst. unfold bucket_of.
    apply (first_hit_intro letter_bitmaps 0 m i).
    + change (List.length letter_bitmaps) with (S (List.length letters)). lia.
    + now apply (pivot_hit word m i H Hi).
    + intros k Hk. apply Hmiss; [lia | now apply Hfirst].
  - intros Hnone Hlow. unfold bucket_of.
    apply (first_hit_intro letter_bitmaps 0 m (List.length letters)).
    + change (List.length letter_bitmaps) with (S (List.length letters)). lia.
    + now apply (catch_all_hit word m H).
    + intros k Hk. apply Hmiss; [exact Hk|]. apply Hnone. now apply nth_In.
  - intros Hnone Hhigh. unfold bucket_of. apply first_hit_none. intros lb Hlb.
    destruct (In_nth _ _ 0%Z Hlb) as (k & Hk & <-).
    change (List.length letter_bitmaps) with (S (List.length letters)) in Hk.
    destruct (Nat.eq_dec k (List.length letters)) as [->|Hne].
    + destruct (Z.eq_dec (Z.land m (nth (List.length letters) letter_bitmaps 0%Z)) 0)
        as [E|E]; [exact E|].
      apply (catch_all_hit word m H) in E. destruct E as (c & Hc & Hle).
      specialize (Hhigh c Hc). lia.
    + apply Hmiss; [lia|]. apply Hnone. apply nth_In. lia.
Qed.

(** ** The filter and combine loops *)

Lemma filter_words_buckets_inv ws b :
  filter_words ws initial_buckets = Some b -> buckets_inv ws b.
Proof. apply (filter_words_inv ws [] initial_buckets b initial_buckets_inv). Qed.

(** X5: once some word of length five with a given bitmap has been
    filtered, a word with the same bitmap, the same word again or another
    arrangement of its letters, leaves the lists as they are. *)
Theorem seen_bitmap_changes_nothing ws b w w' :
  filter_words ws initial_buckets = Some b ->
  In w' ws -> String.length w' = WORD_LENGTH ->
  bitmap_of w = bitmap_of w' ->
  filter_word b w = Some b.
Proof.
  intros Hf Hin Hlen Hsame.
  pose proof (filter_words_buckets_inv ws b Hf) as Inv.
  assert (Hd : exists m, bitmap_of w' = Some m).
  { assert (Hall : Forall (fun w => String.length w = WORD_LENGTH -> bitmap_of w <> None) ws)
      by (apply (filter_words_defined ws initial_buckets); eauto).
    rewrite Forall_forall in Hall. specialize (Hall w' Hin Hlen).
    destruct (bitmap_of w') as [m|]; [eauto | contradiction]. }
  destruct Hd as (m & Hm). rewrite Hm in Hsame.
  unfold filter_word. destruct (negb _); [reflexivity|]. rewrite Hsame.
  destruct (Nat.eqb_spec (popcount m) WORD_LENGTH) as [Hp|Hp]; [|reflexivity].
  rewrite place_first_hit. fold (bucket_of m).
  destruct (bucket_of m) as [k|] eqn:Hk; [|reflexivity].
  assert (Hseen : seen m (nth k (word_bitmaps_letters b) []) = true).
  { apply seen_In. apply (bi_complete ws b Inv w' m k Hin); [|exact Hk].
    repeat split; assumption. }
  now rewrite Hseen.
Qed.

Lemma seen_bitmap_changes_nothing_sample :
  filter_word sample_buckets "drofj" = Some sample_buckets.
Proof.
  apply (seen_bitmap_changes_nothing sample_words sample_buckets "drofj" "fjord").
  - reflexivity.
  - simpl. tauto.
  - reflexivity.
  - reflexivity.
Defined.

(** X6: the words of the search index are words of the input, no word
    occurs twice among them, and there are at most as many as the input
    has words. *)
Theorem unique_words_from_input ws idx :
  build_index ws = Some idx ->
  NoDup (unique_words idx) /\
  incl (unique_words idx) ws /\
  number_of_words idx <= List.length ws.
Proof.
  intros H. apply build_index_built in H. pose proof (ib_ok ws idx H) as OK.
  assert (Hnd : NoDup (unique_words idx)).
  { apply (NoDup_nth _ EmptyString). intros i j Hi Hj E.
    rewrite (ok_words idx OK) in Hi, Hj.
    apply (proj1 (NoDup_nth _ 0%Z) (ib_nodup ws idx H)); try assumption.
    rewrite <- (ok_count idx OK) in Hi, Hj.
    pose proof (index_word_bitmap ws idx H i Hi) as Ei.
    pose proof (index_word_bitmap ws idx H j Hj) as Ej.
    unfold word_at in Ei, Ej. rewrite E in Ei. unfold bitmap_at in Ei, Ej. congruence. }
  assert (Hincl : incl (unique_words idx) ws).
  { intros w Hw. destruct (In_nth _ _ EmptyString Hw) as (k & Hk & <-).
    rewrite (ok_words idx OK), <- (ok_count idx OK) in Hk.
    destruct (index_entry ws idx H k Hk) as (_ & Hf). now apply find_some in Hf. }
  split; [exact Hnd|]. split; [exact Hincl|].
  rewrite (ok_count idx OK), <- (ok_words idx OK). now apply NoDup_incl_length.
Qed.

Lemma unique_words_from_input_sample :
  NoDup (unique_words sample_index) /\
  incl (unique_words sample_index) sample_words /\
  number_of_words sample_index <= List.length sample_words.
Proof. apply (unique_words_from_input sample_words sample_index). reflexivity. Defined.

Lemma segment_of_concat {A} (v : list (list A)) i :
  firstn (offset v (S i) - offset v i) (skipn (offset v i) (List.concat v)) = nth i v [].
Proof.
  rewrite offset_S.
  replace (offset v i + List.length (nth i v []) - offset v i)
    with (List.length (nth i v [])) by lia.
  assert (E : List.concat v
              = List.concat (firstn i v) ++ nth i v [] ++ List.concat (skipn (S i) v)).
  { rewrite <- (firstn_skipn (S i) v) at 1.
    now rewrite concat_app, concat_firstn_S, <- app_assoc. }
  rewrite E. unfold offset. rewrite skipn_app, skipn_all, Nat.sub_diag. simpl.
  rewrite firstn_app, firstn_all, Nat.sub_diag. simpl. apply app_nil_r.
Qed.

Lemma offset_same_shape {A B} (R : A -> B -> Prop) v1 v2 i :
  Forall2 (Forall2 R) v1 v2 -> offset v1 i = offset v2 i.
Proof.
  intros H. unfold offset. revert i.
  induction H as [|l1 l2 v1 v2 Hl Hv IH]; intros i; [now rewrite !firstn_nil|].
  destruct i as [|i]; [reflexivity|].
  simpl. rewrite !length_app, (IH i). f_equal. eapply Forall2_length. exact Hl.
Qed.

(** X7: between two consecutive boundaries the flat arrays hold exactly
    the list of that letter, bitmaps and words alike. *)
Theorem boundaries_delimit_lists ws b index :
  filter_words ws initial_buckets = Some b ->
  index < List.length letter_bitmaps ->
  firstn (boundary (combine b) (index + 1) - boundary (combine b) index)
         (skipn (boundary (combine b) index) (word_bitmaps (combine b)))
  = nth index (word_bitmaps_letters b) [] /\
  firstn (boundary (combine b) (index + 1) - boundary (combine b) index)
         (skipn (boundary (combine b) index) (unique_words (combine b)))
  = nth index (unique_words_letters b) [].
Proof.
  intros Hf Hi. pose proof (filter_words_buckets_inv ws b Hf) as [Hl He _ _ _ _].
  assert (Hlen : List.length (unique_words_letters b)
                 = List.length (word_bitmaps_letters b))
    by (symmetry; eapply Forall2_length; exact He).
  rewrite (combine_eq b Hlen). unfold boundary. simpl.
  rewrite !nth_offsets by lia. rewrite Nat.add_1_r. split.
  - apply segment_of_concat.
  - rewrite !(offset_same_shape _ _ _ _ He). apply segment_of_concat.
Qed.

Lemma boundaries_delimit_lists_sample :
  firstn (boundary (combine sample_buckets) (3 + 1) - boundary (combine sample_buckets) 3)
         (skipn (boundary (combine sample_buckets) 3) (word_bitmaps (combine sample_buckets)))
  = nth 3 (word_bitmaps_letters sample_buckets) [] /\
  firstn (boundary (combine sample_buckets) (3 + 1) - boundary (combine sample_buckets) 3)
         (skipn (boundary (combine sample_buckets) 3) (unique_words (combine sample_buckets)))
  = nth 3 (unique_words_letters sample_buckets) [].
Proof.
  apply (boundaries_delimit_lists sample_words sample_buckets 3).
  - reflexivity.
  - simpl. lia.
Defined.

(** ** The search *)

(** X8: for a pair [(i, j)] the two scratch vectors run in step; the
    candidate indices are strictly increasing and are exactly the indices
    behind [j] whose bitmap is disjoint from [used_ij]: skipping the lists
    whose pivot letter is used up loses no candidate. *)
Theorem candidates_are_disjoint_later_entries ws idx j used_ij :
  build_index ws = Some idx ->
  fst (candidates idx j used_ij) = map (bitmap_at idx) (snd (candidates idx j used_ij)) /\
  StronglySorted lt (snd (candidates idx j used_ij)) /\
  (forall k, In k (snd (candidates idx j used_ij)) <->
             j < k /\ k < number_of_words idx /\
             Z.land used_ij (bitmap_at idx k) = 0%Z).
Proof.
  intros H. apply build_index_built in H. pose proof (ib_ok ws idx H) as OK.
  rewrite candidates_eq. simpl. split; [reflexivity|]. split.
  - now apply candidate_list_increasing.
  - intros k. now apply in_candidate_list.
Qed.

Lemma candidates_are_disjoint_later_entries_sample :
  fst (candidates sample_index 1 38423081)
  = map (bitmap_at sample_index) (snd (candidates sample_index 1 38423081)) /\
  StronglySorted lt (snd (candidates sample_index 1 38423081)) /\
  (forall k, In k (snd (candidates sample_index 1 38423081)) <->
             1 < k /\ k < number_of_words sample_index /\
             Z.land 38423081 (bitmap_at sample_index k) = 0%Z).
Proof.
  apply (candidates_are_disjoint_later_entries sample_words sample_index). reflexivity.
Defined.



(** ** Matches and the letters of the input *)

Lemma defined_word_NoDup word m :
  bitmap_of word = Some m ->
  (popcount m = String.length word <-> NoDup (list_ascii_of_string word)).
Proof.
  intros H. unfold popcount.
  rewrite (Permutation_length (set_bits_permutation word m H)), length_map, <- length_chars.
  apply nodup_length_iff.
Qed.

Lemma admitted_NoDup word m : admitted word m -> NoDup (list_ascii_of_string word).
Proof.
  intros (Hl & Hb & Hp). apply (defined_word_NoDup word m Hb). now rewrite Hp, Hl.
Qed.

Lemma NoDup_app_disjoint {A} (l1 l2 : list A) x :
  NoDup (l1 ++ l2) -> In x l1 -> In x l2 -> False.
Proof.
  induction l1 as [|a l1 IH]; simpl; intros H H1 H2; [contradiction|].
  apply NoDup_cons_iff in H. destruct H as (Ha & H). destruct H1 as [->|H1].
  - apply Ha, in_or_app. now right.
  - now apply IH.
Qed.

(** Two defined bitmaps are disjoint exactly when the words share no
    character. *)
Lemma disjoint_bitmaps_letters w1 m1 w2 m2 :
  bitmap_of w1 = Some m1 -> bitmap_of w2 = Some m2 ->
  (Z.land m1 m2 = 0%Z <->
   forall c, In c (list_ascii_of_string w1) -> ~ In c (list_ascii_of_string w2)).
Proof.
  intros H1 H2. rewrite Bits.land_zero_bits. split.
  - intros H c Hc1 Hc2. specialize (H (shift_amount c)).
    rewrite (proj2 (letter_in_bitmap w1 m1 c H1) Hc1),
            (proj2 (letter_in_bitmap w2 m2 c H2) Hc2) in H. discriminate.
  - intros H n.
    destruct (Z.testbit m1 n) eqn:B1; [|reflexivity].
    destruct (Z.testbit m2 n) eqn:B2; [|reflexivity].
    apply (bitmap_bit w1 m1 n H1), in_char_shifts in B1.
    apply (bitmap_bit w2 m2 n H2), in_char_shifts in B2.
    destruct B1 as (c1 & Hc1 & E1). destruct B2 as (c2 & Hc2 & E2).
    assert (c1 = c2) by (apply shift_amount_inj; congruence). subst c2.
    exfalso. now apply (H c1).
Qed.

Lemma disjoint_words_letters wl ml :
  Forall2 (fun w mk => bitmap_of w = Some mk) wl ml ->
  Forall (fun w => NoDup (list_ascii_of_string w)) wl ->
  pairwise_disjointb ml = true ->
  NoDup (List.concat (map list_ascii_of_string wl)).
Proof.
  induction 1 as [|w mk wl ml Hw Hrest IH]; intros Hnd D; simpl; [constructor|].
  simpl in D. apply andb_true_iff in D. destruct D as (Dm & Dr).
  apply Forall_cons_iff in Hnd. destruct Hnd as (Hwn & Hnd).
  apply NoDup_app; [exact Hwn | now apply IH|].
  intros c Hc Hin. apply in_concat in Hin. destruct Hin as (l & Hl & Hcl).
  apply in_map_iff in Hl. destruct Hl as (w' & <- & Hw').
  destruct (Forall2_In_l _ _ _ w' Hrest Hw') as (mk' & Hmk' & Hb').
  rewrite forallb_forall in Dm. specialize (Dm mk' Hmk'). apply Z.eqb_eq in Dm.
  now apply (proj1 (disjoint_bitmaps_letters w mk w' mk' Hw Hb') Dm c).
Qed.

Lemma letters_disjoint_words wl ml :
  Forall2 (fun w mk => bitmap_of w = Some mk) wl ml ->
  NoDup (List.concat (map list_ascii_of_string wl)) ->
  pairwise_disjointb ml = true.
Proof.
  induction 1 as [|w mk wl ml Hw Hrest IH]; intros Hnd; simpl; [reflexivity|].
  simpl in Hnd. apply andb_true_iff. split; [|apply IH; now apply NoDup_app_remove_l in Hnd].
  apply forallb_forall. intros mk' Hmk'. apply Z.eqb_eq.
  apply Forall2_flip in Hrest.
  destruct (Forall2_In_l _ _ _ mk' Hrest Hmk') as (w' & Hw' & Hb').
  apply (disjoint_bitmaps_letters w mk w' mk' Hw Hb').
  intros c Hc Hc'. apply (NoDup_app_disjoint _ _ c Hnd Hc).
  apply in_concat. exists (list_ascii_of_string w'). split; [now apply in_map | exact Hc'].
Qed.

Lemma entries_of_indices ws idx t :
  index_built ws idx ->
  Forall (fun k => k < number_of_words idx) t ->
  Forall2 (fun w mk => bitmap_of w = Some mk)
          (map (word_at idx) t) (map (bitmap_at idx) t) /\
  Forall (fun w => In w ws /\ String.length w = WORD_LENGTH /\
                   NoDup (list_ascii_of_string w))
         (map (word_at idx) t).
Proof.
  intros B. induction 1 as [|k t Hk Ht (IH1 & IH2)]; simpl; [split; constructor|].
  destruct (index_entry ws idx B k Hk) as (Ha & Hf).
  split; constructor; try assumption.
  - now destruct Ha as (_ & ? & _).
  - split; [now apply find_some in Hf|]. split; [now destruct Ha | now apply (admitted_NoDup _ _ Ha)].
Qed.

(** X10: every match consists of five different words of the input, each
    of length five, and no character occurs twice among their 25
    characters. *)
Theorem match_is_25_distinct_characters ws r m :
  five_words ws = Some r ->
  In m r ->
  List.length m = 5 /\
  NoDup m /\
  Forall (fun w => In w ws /\ String.length w = WORD_LENGTH) m /\
  NoDup (List.concat (map list_ascii_of_string m)) /\
  List.length (List.concat (map list_ascii_of_string m)) = 25.
Proof.
  unfold five_words. intros H Hm.
  destruct (build_index ws) as [idx|] eqn:Hb; [|discriminate]. injection H as <-.
  apply build_index_built in Hb. pose proof (ib_ok ws idx Hb) as OK.
  rewrite search_words_of_indices in Hm. apply in_map_iff in Hm.
  destruct Hm as (t & <- & Ht).
  apply (in_search_indices_sorted idx OK) in Ht. destruct Ht as (Hlen & Hs & Hf & D).
  destruct (entries_of_indices ws idx t Hb Hf) as (He & Hw).
  assert (Hnd : NoDup (List.concat (map list_ascii_of_string (map (word_at idx) t)))).
  { apply (disjoint_words_letters _ _ He); [|exact D].
    apply (Forall_impl _ (P := fun w => In w ws /\ String.length w = WORD_LENGTH /\
                                         NoDup (list_ascii_of_string w))); [tauto | exact Hw]. }
  split; [now rewrite length_map|]. split; [|split; [|split; [exact Hnd|]]].
  - apply NoDup_map_NoDup_ForallPairs; [|now apply increasing_NoDup].
    intros k1 k2 H1 H2 E. rewrite Forall_forall in Hf.
    pose proof (index_word_bitmap ws idx Hb k1 (Hf k1 H1)) as E1.
    pose proof (index_word_bitmap ws idx Hb k2 (Hf k2 H2)) as E2.
    rewrite E in E1.
    apply (proj1 (NoDup_nth _ 0%Z) (ib_nodup ws idx Hb));
      rewrite <- ?(ok_count idx OK); auto.
    unfold bitmap_at in E1, E2. congruence.
  - apply (Forall_impl _ (P := fun w => In w ws /\ String.length w = WORD_LENGTH /\
                                         NoDup (list_ascii_of_string w))); [tauto | exact Hw].
  - destruct t as [|i [|j [|a [|b [|c [|]]]]]]; try discriminate.
    apply Forall_cons_iff in Hw. destruct Hw as ((_ & L1 & _) & Hw).
    apply Forall_cons_iff in Hw. destruct Hw as ((_ & L2 & _) & Hw).
    apply Forall_cons_iff in Hw. destruct Hw as ((_ & L3 & _) & Hw).
    apply Forall_cons_iff in Hw. destruct Hw as ((_ & L4 & _) & Hw).
    apply Forall_cons_iff in Hw. destruct Hw as ((_ & L5 & _) & _).
    cbn [map List.concat]. rewrite !length_app, !length_chars, L1, L2, L3, L4, L5.
    reflexivity.
Qed.

Lemma match_is_25_distinct_characters_sample :
  List.length ["vibex"; "waltz"; "fjord"; "nymph"; "gucks"]%string = 5 /\
  NoDup ["vibex"; "waltz"; "fjord"; "nymph"; "gucks"]%string /\
  Forall (fun w => In w sample_words /\ String.length w = WORD_LENGTH)
         ["vibex"; "waltz"; "fjord"; "nymph"; "gucks"]%string /\
  NoDup (List.concat (map list_ascii_of_string
                          ["vibex"; "waltz"; "fjord"; "nymph"; "gucks"]%string)) /\
  List.length (List.concat (map list_ascii_of_string
                                ["vibex"; "waltz"; "fjord"; "nymph"; "gucks"]%string)) = 25.
Proof.
  apply (match_is_25_distinct_characters sample_words
           [["vibex"; "waltz"; "fjord"; "nymph"; "gucks"]%string]).
  - vm_compute. reflexivity.
  - now left.
Defined.

(** Five pairwise disjoint bitmaps of the index are found by the search,
    in index order. *)
Lemma search_finds ws idx ms :
  index_built ws idx ->
  List.length ms = 5 ->
  (forall x, In x ms -> In x (word_bitmaps idx)) ->
  pairwise_disjointb ms = true ->
  exists m, In m (search idx) /\ Permutation (map Some ms) (map bitmap_of m).
Proof.
  intros B Hlen Hin D. pose proof (ib_ok ws idx B) as OK.
  destruct (positions_of (word_bitmaps idx) 0%Z ms Hin) as (t0 & Et0 & Ft0).
  fold (bitmap_at idx) in Et0.
  assert (Hnz : Forall (fun x => x <> 0%Z) ms).
  { rewrite <- Et0. apply Forall_forall. intros x Hx. apply in_map_iff in Hx.
    destruct Hx as (k & <- & Hk). rewrite Forall_forall in Ft0.
    pose proof (ok_popcount idx OK k) as Hp. rewrite (ok_count idx OK) in Hp.
    specialize (Hp (Ft0 k Hk)). intros E. rewrite E in Hp. discriminate. }
  assert (Hnd : NoDup t0).
  { apply (NoDup_map_inv (bitmap_at idx)). rewrite Et0. now apply disjoint_NoDup. }
  destruct (sort_exists t0 Hnd) as (t & P & S).
  assert (Pm : Permutation ms (map (bitmap_at idx) t)).
  { rewrite <- Et0. now apply Permutation_map. }
  assert (Ft : Forall (fun k => k < number_of_words idx) t).
  { rewrite (ok_count idx OK). apply Forall_forall. intros k Hk.
    rewrite Forall_forall in Ft0. apply Ft0.
    apply (Permutation_in _ (Permutation_sym P) Hk). }
  exists (map (word_at idx) t). split.
  - rewrite search_words_of_indices. apply in_map.
    apply (in_search_indices_sorted idx OK). repeat split; try assumption.
    + now rewrite <- (Permutation_length P), <- (length_map (bitmap_at idx) t0), Et0.
    + now apply (pairwise_disjointb_perm ms).
  - rewrite (words_bitmaps ws idx t B Ft). now apply Permutation_map.
Qed.

Lemma filed_when_pivot_or_low word m :
  bitmap_of word = Some m ->
  (exists c, In c (list_ascii_of_string word) /\
             (In c letters \/ (char_code c <= char_code "p")%Z)) ->
  bucket_of m <> None.
Proof.
  intros H (c & Hc & Hor) Hnone. unfold bucket_of in Hnone.
  rewrite first_hit_none in Hnone. destruct Hor as [Hl|Hl].
  - destruct (In_nth _ _ "a"%char Hl) as (i & Hi & E).
    apply (proj2 (pivot_hit word m i H Hi)); [now rewrite E|].
    apply Hnone. apply nth_In.
    change (List.length letter_bitmaps) with (S (List.length letters)). lia.
  - apply (proj2 (catch_all_hit word m H)); [eauto|].
    apply Hnone. apply nth_In.
    change (List.length letter_bitmaps) with (S (List.length letters)). lia.
Qed.

(** X11: whenever the input holds five words of length five whose 25
    characters are all different, each word with one of the twelve pivot
    letters or a character up to ['p'], the result holds a match with the
    same five letter sets. *)
Theorem disjoint_input_words_are_found ws r five :
  five_words ws = Some r ->
  List.length five = 5 ->
  Forall (fun w => In w ws /\ String.length w = WORD_LENGTH /\
                   exists c, In c (list_ascii_of_string w) /\
                             (In c letters \/ (char_code c <= char_code "p")%Z)) five ->
  NoDup (List.concat (map list_ascii_of_string five)) ->
  exists m, In m r /\ Permutation (map bitmap_of five) (map bitmap_of m).
Proof.
  unfold five_words. intros H Hlen Hf Hnd.
  destruct (build_index ws) as [idx|] eqn:Hb; [|discriminate]. injection H as <-.
  assert (Hdef : Forall (fun w => String.length w = WORD_LENGTH -> bitmap_of w <> None) ws)
    by (apply build_index_defined; eauto).
  apply build_index_built in Hb.
  assert (Hms : exists ms, Forall2 (fun w mk => bitmap_of w = Some mk) five ms).
  { clear Hlen Hnd. induction Hf as [|w five (Hin & Hl & _) _ (ms & IH)].
    - exists []. constructor.
    - rewrite Forall_forall in Hdef. specialize (Hdef w Hin Hl).
      destruct (bitmap_of w) as [mk|] eqn:E; [|contradiction].
      exists (mk :: ms). now constructor. }
  destruct Hms as (ms & Hms).
  assert (Emap : map bitmap_of five = map Some ms).
  { clear -Hms. induction Hms as [|w mk five ms E _ IH]; simpl; [reflexivity|].
    now rewrite E, IH. }
  assert (D : pairwise_disjointb ms = true) by (now apply (letters_disjoint_words five)).
  assert (Hin : forall x, In x ms -> In x (word_bitmaps idx)).
  { intros x Hx. apply Forall2_flip in Hms.
    destruct (Forall2_In_l _ _ _ x Hms Hx) as (w & Hw & Hbw).
    rewrite Forall_forall in Hf. destruct (Hf w Hw) as (Hws & Hl & Hc).
    apply (ib_members ws idx Hb). exists w. split; [exact Hws|]. split.
    - split; [exact Hl|]. split; [exact Hbw|].
      rewrite <- Hl. apply (defined_word_NoDup w x Hbw).
      clear -Hnd Hw. induction five as [|w0 five IH]; [contradiction|].
      simpl in Hnd. destruct Hw as [->|Hw].
      + now apply NoDup_app_remove_r in Hnd.
      + apply IH; [now apply NoDup_app_remove_l in Hnd | exact Hw].
    - now apply (filed_when_pivot_or_low w x Hbw). }
  rewrite Emap. apply (search_finds ws idx ms Hb); try assumption.
  rewrite <- Hlen. symmetry. eapply Forall2_length. exact Hms.
Qed.

Lemma disjoint_input_words_are_found_sample :
  exists m, In m [["vibex"; "waltz"; "fjord"; "nymph"; "gucks"]%string] /\
            Permutation (map bitmap_of ["fjord"; "gucks"; "nymph"; "vibex"; "waltz"]%string)
                        (map bitmap_of m).
Proof.
  apply (disjoint_input_words_are_found sample_words).
  - vm_compute. reflexivity.
  - reflexivity.
  - repeat apply Forall_cons; try apply Forall_nil;
      (split; [simpl; tauto | split; [reflexivity|]]).
    + exists "f"%char. split; [simpl; tauto|]. right. vm_compute. discriminate.
    + exists "g"%char. split; [simpl; tauto|]. right. vm_compute. discriminate.
    + exists "n"%char. split; [simpl; tauto|]. left. simpl. tauto.
    + exists "e"%char. split; [simpl; tauto|]. left. simpl. tauto.
    + exists "a"%char. split; [simpl; tauto|]. left. simpl. tauto.
  - apply (NoDup_map_inv nat_of_ascii). vm_compute.
    repeat (constructor; [simpl; lia|]). constructor.
Defined.

(** ** Reading the file *)

Section Trim.

Lemma drop_space_prefix l :
  exists pre, l = pre ++ drop_space l /\ forallb is_space pre = true.
Proof.
  induction l as [|c l (pre & E & Hp)]; simpl.
  - exists []. now split.
  - destruct (is_space c) eqn:Hc.
    + exists (c :: pre). simpl. rewrite Hc, Hp. split; [now f_equal | reflexivity].
    + exists []. now split.
Qed.

Lemma drop_space_head l c rest : drop_space l = c :: rest -> is_space c = false.
Proof.
  induction l as [|a l IH]; simpl; [discriminate|].
  destruct (is_space a) eqn:Ha; [exact IH|]. intros [= <- _]. exact Ha.
Qed.

Lemma drop_space_spaces pre l :
  forallb is_space pre = true -> drop_space (pre ++ l) = drop_space l.
Proof.
  induction pre as [|c pre IH]; simpl; [reflexivity|].
  rewrite andb_true_iff. intros (Hc & Hp). rewrite Hc. now apply IH.
Qed.

Lemma drop_space_fixed c l : is_space c = false -> drop_space (c :: l) = c :: l.
Proof. intros H. simpl. now rewrite H. Qed.

Lemma drop_space_snoc l c :
  is_space c = false -> drop_space (l ++ [c]) = drop_space l ++ [c].
Proof.
  intros Hc. induction l as [|a l IH]; simpl; [now rewrite Hc|].
  now destruct (is_space a).
Qed.

(** The trimmed line on lists of characters. *)
Lemma trim_chars line :
  list_ascii_of_string (trim line)
  = rev (drop_space (rev (drop_space (list_ascii_of_string line)))).
Proof. unfold trim. apply list_ascii_of_string_of_list_ascii. Qed.

(** The trimmed line is empty or starts and ends with a character that is
    not whitespace. *)
Lemma trim_ends line :
  list_ascii_of_string (trim line) = [] \/
  exists c mid c' front,
    is_space c = false /\ is_space c' = false /\
    list_ascii_of_string (trim line) = c :: mid /\
    rev (list_ascii_of_string (trim line)) = c' :: front.
Proof.
  rewrite trim_chars.
  destruct (drop_space (list_ascii_of_string line)) as [|c d] eqn:Ed; [now left|].
  right. pose proof (drop_space_head _ _ _ Ed) as Hc.
  cbn [rev]. rewrite (drop_space_snoc _ _ Hc), rev_involutive, rev_unit.
  destruct (drop_space (rev d)) as [|c' e] eqn:Ee.
  - exists c, [], c, []. repeat split; assumption.
  - pose proof (drop_space_head _ _ _ Ee) as Hc'.
    exists c, (rev (c' :: e)), c', (e ++ [c]). repeat split; assumption.
Qed.

Lemma trim_list_padded pre u post :
  forallb is_space pre = true -> forallb is_space post = true ->
  (u = [] \/ exists c mid c' front, is_space c = false /\ is_space c' = false /\
                                    u = c :: mid /\ rev u = c' :: front) ->
  rev (drop_space (rev (drop_space (pre ++ u ++ post)))) = u.
Proof.
  intros Hpre Hpost Hu. rewrite (drop_space_spaces pre _ Hpre).
  assert (Hrp : forallb is_space (rev post) = true).
  { rewrite forallb_forall in *. intros x Hx. apply Hpost. now apply in_rev. }
  destruct Hu as [->|(c & mid & c' & front & Hc & Hc' & E & Er)].
  - simpl. destruct (drop_space_prefix post) as (p & Ep & _).
    assert (Hd : drop_space post = []).
    { rewrite <- (app_nil_r post) at 1. rewrite (drop_space_spaces post [] Hpost).
      reflexivity. }
    now rewrite Hd.
  - rewrite E. change ((c :: mid) ++ post) with (c :: (mid ++ post)).
    rewrite (drop_space_fixed c _ Hc).
    change (c :: mid ++ post) with ((c :: mid) ++ post). rewrite <- E.
    rewrite rev_app_distr, (drop_space_spaces _ _ Hrp), Er,
            (drop_space_fixed c' _ Hc'), <- Er.
    apply rev_involutive.
Qed.

Lemma chars_append (a b : string) :
  list_ascii_of_string (a ++ b) = list_ascii_of_string a ++ list_ascii_of_string b.
Proof. induction a as [|c a IH]; simpl; [reflexivity | now rewrite IH]. Qed.

Lemma chars_inj (a b : string) :
  list_ascii_of_string a = list_ascii_of_string b -> a = b.
Proof.
  intros H. rewrite <- (string_of_list_ascii_of_string a),
                    <- (string_of_list_ascii_of_string b). now rewrite H.
Qed.

End Trim.

(** X12: trimming takes whitespace off both ends of a line and nothing
    else: the line is the trimmed line between two runs of whitespace,
    and the trimmed line, unless empty, starts and ends with a character
    that is not whitespace. *)
Theorem trim_removes_surrounding_whitespace (line : string) :
  (exists pre post,
      list_ascii_of_string line = pre ++ list_ascii_of_string (trim line) ++ post /\
      forallb is_space pre = true /\ forallb is_space post = true) /\
  (forall c rest, list_ascii_of_string (trim line) = c :: rest -> is_space c = false) /\
  (forall front c, list_ascii_of_string (trim line) = front ++ [c] -> is_space c = false).
Proof.
  split; [|split].
  - rewrite trim_chars.
    destruct (drop_space_prefix (list_ascii_of_string line)) as (pre & E & Hpre).
    destruct (drop_space_prefix (rev (drop_space (list_ascii_of_string line))))
      as (p2 & E2 & Hp2).
    exists pre, (rev p2). split; [|split; [exact Hpre|]].
    + rewrite <- rev_app_distr, <- E2, rev_involutive. exact E.
    + rewrite forallb_forall in *. intros x Hx. apply Hp2. now apply in_rev.
  - intros c rest E.
    destruct (trim_ends line) as [E0|(c0 & mid & c' & fr & Hc & _ & E1 & _)]; congruence.
  - intros front c E.
    destruct (trim_ends line) as [E0|(c0 & mid & c' & fr & _ & Hc' & _ & E1)].
    + rewrite E0 in E. now destruct front.
    + rewrite E, rev_unit in E1. congruence.
Qed.

(** X13: whitespace put around a trimmed line is taken off again; so
    trimming twice is trimming once. *)
Theorem trim_of_padded_line (pre w post : string) :
  forallb is_space (list_ascii_of_string pre) = true ->
  forallb is_space (list_ascii_of_string post) = true ->
  trim (pre ++ trim w ++ post) = trim w.
Proof.
  intros Hpre Hpost. apply chars_inj.
  rewrite (trim_chars (pre ++ trim w ++ post)), !chars_append.
  apply trim_list_padded; try assumption.
  destruct (trim_ends w) as [E|(c & mid & c' & front & Hc & Hc' & E1 & E2)]; [now left|].
  right. exists c, mid, c', front. repeat split; assumption.
Qed.

Lemma trim_of_padded_line_sample :
  trim (" " ++ trim "fjord" ++ String (ascii_of_nat 13) EmptyString) = trim "fjord".
Proof. apply trim_of_padded_line; reflexivity. Defined.

Section Lines.

Lemma append_nil_r (s : string) : (s ++ "")%string = s.
Proof. induction s as [|c s IH]; simpl; [reflexivity | now rewrite IH]. Qed.

Lemma append_assoc (a b c : string) : ((a ++ b) ++ c)%string = (a ++ (b ++ c))%string.
Proof. induction a as [|x a IH]; simpl; [reflexivity | now rewrite IH]. Qed.

Lemma length_append (a b : string) :
  String.length (a ++ b) = String.length a + String.length b.
Proof. induction a as [|x a IH]; simpl; [reflexivity | now rewrite IH]. Qed.

Lemma read_lines_spec content : forall line,
  ~ In newline (list_ascii_of_string line) ->
  Forall (fun l => ~ In newline (list_ascii_of_string l)) (read_lines content line) /\
  (((line ++ content)%string = String.concat (String newline "") (read_lines content line) /\
    (read_lines content line = [] \/ last (read_lines content line) EmptyString <> EmptyString)) \/
   (read_lines content line <> [] /\
    (line ++ content)%string
    = (String.concat (String newline "") (read_lines content line)
       ++ String newline "")%string)).
Proof.
  induction content as [|c rest IH]; intros line Hline.
  - rewrite append_nil_r. simpl. destruct line as [|a line'].
    + split; [constructor|]. left. split; [reflexivity | now left].
    + split; [now repeat constructor|]. left. split; [reflexivity|].
      right. simpl. discriminate.
  - simpl. destruct (Ascii.eqb_spec c newline) as [->|Hc].
    + destruct (IH EmptyString ltac:(simpl; tauto)) as (Hall & Heq).
      split; [now constructor|]. simpl in Heq.
      destruct (read_lines rest "") as [|x xs] eqn:E.
      * right. split; [discriminate|].
        destruct Heq as [(-> & _)|(Hne & _)]; [reflexivity | contradiction].
      * change (String.concat (String newline "") (line :: x :: xs))
          with (line ++ String newline "" ++ String.concat (String newline "") (x :: xs))%string.
        change (last (line :: x :: xs) EmptyString) with (last (x :: xs) EmptyString).
        destruct Heq as [(-> & [Hnil|Hlast])|(_ & ->)].
        -- discriminate.
        -- left. split; [reflexivity | now right].
        -- right. split; [discriminate|]. now rewrite !append_assoc.
    + specialize (IH (line ++ String c "")%string).
      rewrite append_assoc in IH. apply IH.
      rewrite chars_append. intros Hin. apply in_app_or in Hin.
      destruct Hin as [Hin|[Hin|[]]]; [now apply Hline | now apply Hc].
Qed.

(** A line without newline is taken up whole. *)
Lemma read_lines_line l : forall rest line,
  ~ In newline (list_ascii_of_string l) ->
  read_lines (l ++ rest) line = read_lines rest (line ++ l).
Proof.
  induction l as [|c l IH]; intros rest line Hl; simpl.
  - now rewrite append_nil_r.
  - destruct (Ascii.eqb_spec c newline) as [->|Hc]; [exfalso; apply Hl; now left|].
    rewrite IH by (intros Hin; apply Hl; now right).
    now rewrite append_assoc.
Qed.

Lemma read_lines_terminated ls :
  Forall (fun l => ~ In newline (list_ascii_of_string l)) ls -> ls <> [] ->
  read_lines (String.concat (String newline "") ls ++ String newline "") "" = ls.
Proof.
  induction 1 as [|x ls Hx Hls IH]; intros Hne; [contradiction|].
  destruct ls as [|y ys].
  - simpl String.concat. rewrite (read_lines_line x _ _ Hx). reflexivity.
  - change (String.concat (String newline "") (x :: y :: ys))
      with (x ++ String newline "" ++ String.concat (String newline "") (y :: ys))%string.
    rewrite append_assoc, (read_lines_line x _ _ Hx). simpl.
    f_equal. apply IH. discriminate.
Qed.

Lemma read_lines_unterminated ls :
  Forall (fun l => ~ In newline (list_ascii_of_string l)) ls ->
  last ls EmptyString <> EmptyString ->
  read_lines (String.concat (String newline "") ls) "" = ls.
Proof.
  induction 1 as [|x ls Hx Hls IH]; intros Hlast; [now contradiction Hlast|].
  destruct ls as [|y ys].
  - simpl in *. rewrite <- (append_nil_r x) at 1.
    rewrite (read_lines_line x _ _ Hx). simpl. now destruct x.
  - change (String.concat (String newline "") (x :: y :: ys))
      with (x ++ String newline "" ++ String.concat (String newline "") (y :: ys))%string.
    rewrite (read_lines_line x _ _ Hx). simpl.
    f_equal. now apply IH.
Qed.

End Lines.

(** X14: reading undoes joining.  Lines without newline, each ended by a
    newline, are read back as they are, and so are lines joined by newlines
    whose last line is not empty: a final newline opens no further line
    and a last line without newline counts.  Conversely the lines read
    from any content hold no newline, and the content is these lines
    joined by newlines, with a last line that is not empty, or these lines
    each ended by a newline. *)
Theorem read_lines_round_trip :
  (forall ls, Forall (fun l => ~ In newline (list_ascii_of_string l)) ls -> ls <> [] ->
              read_lines (String.concat (String newline "") ls ++ String newline "") ""
              = ls) /\
  (forall ls, Forall (fun l => ~ In newline (list_ascii_of_string l)) ls ->
              last ls EmptyString <> EmptyString ->
              read_lines (String.concat (String newline "") ls) "" = ls) /\
  read_lines "" "" = [] /\
  (forall content,
      Forall (fun l => ~ In newline (list_ascii_of_string l)) (read_lines content "") /\
      ((content = String.concat (String newline "") (read_lines content "") /\
        (read_lines content "" = [] \/
         last (read_lines content "") EmptyString <> EmptyString)) \/
       (read_lines content "" <> [] /\
        content = (String.concat (String newline "") (read_lines content "")
                   ++ String newline "")%string))).
Proof.
  split; [exact read_lines_terminated|]. split; [exact read_lines_unterminated|].
  split; [reflexivity|].
  intros content. apply (read_lines_spec content EmptyString). simpl. tauto.
Qed.

Lemma read_lines_round_trip_sample :
  read_lines (String.concat (String newline "") ["fjord"; ""; "waltz"]%string
              ++ String newline "") ""
  = ["fjord"; ""; "waltz"]%string /\
  read_lines (String.concat (String newline "") ["fjord"; "waltz"]%string) ""
  = ["fjord"; "waltz"]%string.
Proof.
  split.
  - apply (proj1 read_lines_round_trip).
    + repeat constructor; simpl; intuition discriminate.
    + discriminate.
  - apply (proj1 (proj2 read_lines_round_trip)).
    + repeat constructor; simpl; intuition discriminate.
    + simpl. discriminate.
Defined.

(** ** Printing *)

Lemma admitted_no_space word m c :
  bitmap_of word = Some m -> In c (list_ascii_of_string word) -> is_space c = false.
Proof.
  intros H Hc. pose proof (bitmap_shifts_range word m H) as Hr.
  rewrite char_shifts_map, Forall_forall in Hr.
  specialize (Hr _ (in_map shift_amount _ _ Hc)).
  unfold shift_amount in Hr. change (char_code "a") with 97%Z in Hr.
  unfold is_space.
  destruct (Z.eqb_spec (char_code c) 32); [lia|].
  destruct (Z.leb_spec 9 (char_code c)); destruct (Z.leb_spec (char_code c) 13);
    simpl; try reflexivity; lia.
Qed.

(** X15: no word of a match holds a whitespace character, and the line
    printed for a match is 31 characters long: five words of five
    characters, a space after each, and the newline. *)
Theorem printed_match_line ws r m :
  five_words ws = Some r ->
  In m r ->
  Forall (fun w => Forall (fun c => is_space c = false) (list_ascii_of_string w)) m /\
  String.length (print_match m) = 31.
Proof.
  unfold five_words. intros H Hm.
  destruct (build_index ws) as [idx|] eqn:Hb; [|discriminate]. injection H as <-.
  apply build_index_built in Hb. pose proof (ib_ok ws idx Hb) as OK.
  rewrite search_words_of_indices in Hm. apply in_map_iff in Hm.
  destruct Hm as (t & <- & Ht).
  apply (in_search_indices_sorted idx OK) in Ht. destruct Ht as (Hlen & _ & Hf & _).
  split.
  - apply Forall_forall. intros w Hw. apply in_map_iff in Hw. destruct Hw as (k & <- & Hk).
    rewrite Forall_forall in Hf. apply Forall_forall. intros c Hc.
    apply (admitted_no_space _ _ c (index_word_bitmap ws idx Hb k (Hf k Hk)) Hc).
  - destruct t as [|i [|j [|a [|b [|c [|]]]]]]; try discriminate.
    assert (L : forall k, In k [i; j; a; b; c] -> String.length (word_at idx k) = 5).
    { intros k Hk. rewrite Forall_forall in Hf.
      now destruct (index_entry ws idx Hb k (Hf k Hk)) as ((? & _) & _). }
    unfold print_match. simpl. rewrite !length_append. simpl.
    rewrite (L i), (L j), (L a), (L b), (L c) by (simpl; tauto). reflexivity.
Qed.

Lemma printed_match_line_sample :
  Forall (fun w => Forall (fun c => is_space c = false) (list_ascii_of_string w))
         ["vibex"; "waltz"; "fjord"; "nymph"; "gucks"]%string /\
  String.length (print_match ["vibex"; "waltz"; "fjord"; "nymph"; "gucks"]%string) = 31.
Proof.
  apply (printed_match_line sample_words
           [["vibex"; "waltz"; "fjord"; "nymph"; "gucks"]%string]).
  - vm_compute. reflexivity.
  - now left.
Defined.

(** ** When the run is defined *)

(** X16: the run stays within defined behaviour exactly when every input
    word of length five consists of characters from ['a'] up to code 127;
    words of any other length may hold anything. *)
Theorem pipeline_defined_iff ws :
  (exists r, five_words ws = Some r) <->
  Forall (fun w => String.length w = WORD_LENGTH ->
                   Forall (fun c => (char_code "a" <= char_code c <= 127)%Z)
                          (list_ascii_of_string w)) ws.
Proof.
  assert (E : (exists r, five_words ws = Some r) <-> exists idx, build_index ws = Some idx).
  { unfold five_words. destruct (build_index ws) as [idx|]; split; eauto.
    - intros (? & [=]).
    - intros (? & [=]). }
  rewrite E, build_index_defined, !Forall_forall.
  split; intros H w Hw Hl; specialize (H w Hw Hl).
  - unfold bitmap_of in H. apply accumulate_bitmap_defined in H.
    rewrite char_shifts_map, Forall_forall in H. apply Forall_forall. intros c Hc.
    specialize (H _ (in_map shift_amount _ _ Hc)).
    unfold shift_amount in H. change (char_code "a") with 97%Z in *. lia.
  - unfold bitmap_of. apply accumulate_bitmap_defined.
    rewrite char_shifts_map. apply Forall_forall. intros s Hs.
    apply in_map_iff in Hs. destruct Hs as (c & <- & Hc).
    rewrite Forall_forall in H. specialize (H c Hc).
    unfold shift_amount. change (char_code "a") with 97%Z in *. lia.
Qed.

(** ** What is stored for a word *)

Lemma filter_word_admitted st word m :
  admitted word m ->
  filter_word st word = Some (place letter_bitmaps 0 m word st).
Proof.
  intros (Hl & Hb & Hp). unfold filter_word. rewrite Hl, Hb, Hp. reflexivity.
Qed.

(** The step: pushed on list [i] of both vectors unless the bitmap is
    there. *)
Lemma filed_step st word m i :
  admitted word m -> bucket_of m = Some i ->
  filter_word st word
  = Some (if seen m (nth i (word_bitmaps_letters st) []) then st
          else mkBuckets (push_at i m (word_bitmaps_letters st))
                         (push_at i word (unique_words_letters st))).
Proof.
  intros Ha Hk. rewrite (filter_word_admitted st word m Ha), place_first_hit.
  fold (bucket_of m). now rewrite Hk.
Qed.

Lemma unfiled_step st word m :
  admitted word m -> bucket_of m = None -> filter_word st word = Some st.
Proof.
  intros Ha Hk. rewrite (filter_word_admitted st word m Ha), place_first_hit.
  fold (bucket_of m). now rewrite Hk.
Qed.

(** The run: the bitmap is in list [i] and in no other. *)
Lemma filed_run ws b word m i :
  filter_words ws initial_buckets = Some b ->
  In word ws -> admitted word m -> bucket_of m = Some i ->
  In m (nth i (word_bitmaps_letters b) []) /\
  (forall i', In m (nth i' (word_bitmaps_letters b) []) -> i' = i).
Proof.
  intros Hf Hw Ha Hk. pose proof (filter_words_buckets_inv ws b Hf) as Inv. split.
  - now apply (bi_complete ws b Inv word).
  - intros i' Hin. apply (bi_bucket ws b Inv) in Hin. congruence.
Qed.

Lemma unfiled_run ws b m :
  filter_words ws initial_buckets = Some b -> bucket_of m = None ->
  forall i', ~ In m (nth i' (word_bitmaps_letters b) []).
Proof.
  intros Hf Hk i' Hin. pose proof (filter_words_buckets_inv ws b Hf) as Inv.
  apply (bi_bucket ws b Inv) in Hin. congruence.
Qed.

(** X4: a word of length five without repeated character is pushed,
    bitmap and word together and unless its bitmap is there already, on
    the list of the first of the letters e, t, a, o, i, n, s, h, r, l, d, u
    that occurs in it; with none of them it is pushed on the last list when
    it holds a character up to ['p'] and nowhere when all its characters
    lie above ['p'].  After any input holding the word has been filtered,
    its bitmap stands in that list and in no other, or in none at all. *)
Theorem word_filed_by_first_pivot st word m :
  admitted word m ->
  (forall i, i < List.length letters ->
     In (nth i letters "a"%char) (list_ascii_of_string word) ->
     (forall k, k < i -> ~ In (nth k letters "a"%char) (list_ascii_of_string word)) ->
     filter_word st word
     = Some (if seen m (nth i (word_bitmaps_letters st) []) then st
             else mkBuckets (push_at i m (word_bitmaps_letters st))
                            (push_at i word (unique_words_letters st))) /\
     (forall ws b, filter_words ws initial_buckets = Some b -> In word ws ->
                   In m (nth i (word_bitmaps_letters b) []) /\
                   (forall i', In m (nth i' (word_bitmaps_letters b) []) -> i' = i))) /\
  ((forall l, In l letters -> ~ In l (list_ascii_of_string word)) ->
   (exists c, In c (list_ascii_of_string word) /\ (char_code c <= char_code "p")%Z) ->
   filter_word st word
   = Some (if seen m (nth (List.length letters) (word_bitmaps_letters st) []) then st
           else mkBuckets (push_at (List.length letters) m (word_bitmaps_letters st))
                          (push_at (List.length letters) word (unique_words_letters st))) /\
   (forall ws b, filter_words ws initial_buckets = Some b -> In word ws ->
                 In m (nth (List.length letters) (word_bitmaps_letters b) []) /\
                 (forall i', In m (nth i' (word_bitmaps_letters b) []) ->
                             i' = List.length letters))) /\
  ((forall l, In l letters -> ~ In l (list_ascii_of_string word)) ->
   (forall c, In c (list_ascii_of_string word) -> (char_code "p" < char_code c)%Z) ->
   filter_word st word = Some st /\
   (forall ws b, filter_words ws initial_buckets = Some b ->
                 forall i', ~ In m (nth i' (word_bitmaps_letters b) []))).
Proof.
  intros Ha. pose proof Ha as (_ & Hb & _).
  destruct (bucket_of_first_pivot word m Hb) as (Hpivot & Hlow & Hhigh).
  split; [|split].
  - intros i Hi Hin Hfirst. pose proof (Hpivot i Hi Hin Hfirst) as Hk. split.
    + now apply filed_step.
    + intros ws b Hf Hw. now apply (filed_run ws b word).
  - intros Hnone Hc. pose proof (Hlow Hnone Hc) as Hk. split.
    + now apply filed_step.
    + intros ws b Hf Hw. now apply (filed_run ws b word).
  - intros Hnone Hc. pose proof (Hhigh Hnone Hc) as Hk. split.
    + now apply (unfiled_step st word m).
    + intros ws b Hf. now apply (unfiled_run ws b m).
Qed.

Lemma word_filed_by_first_pivot_sample :
  (filter_word initial_buckets "nymph"
   = Some (mkBuckets (push_at 5 16822400%Z (word_bitmaps_letters initial_buckets))
                     (push_at 5 "nymph"%string (unique_words_letters initial_buckets))) /\
   In 16822400%Z (nth 5 (word_bitmaps_letters sample_buckets) []) /\
   (forall i', In 16822400%Z (nth i' (word_bitmaps_letters sample_buckets) []) -> i' = 5)) /\
  (filter_word sample_buckets "vwxyz" = Some sample_buckets /\
   forall i', ~ In 65011712%Z (nth i' (word_bitmaps_letters sample_buckets) [])).
Proof.
  split.
  - destruct (proj1 (word_filed_by_first_pivot initial_buckets "nymph" 16822400
                       (conj eq_refl (conj eq_refl eq_refl))) 5) as (Hstep & Hrun).
    + simpl. lia.
    + simpl. tauto.
    + intros k Hk. do 5 (destruct k as [|k]; [simpl; intuition discriminate|]). lia.
    + split; [exact Hstep|]. apply (Hrun sample_words sample_buckets).
      * reflexivity.
      * simpl. tauto.
  - destruct (proj2 (proj2 (word_filed_by_first_pivot sample_buckets "vwxyz" 65011712
                              (conj eq_refl (conj eq_refl eq_refl))))) as (Hstep & Hrun).
    + intros l Hl Hin. simpl in Hl, Hin. intuition congruence.
    + intros c Hc. simpl in Hc.
      destruct Hc as [<-|[<-|[<-|[<-|[<-|[]]]]]]; vm_compute; reflexivity.
    + split; [exact Hstep|]. apply (Hrun sample_words sample_buckets). reflexivity.
Defined.

(** C7: no bitmap occurs twice in the search index and the word stored
    with a bitmap is the first word of the input that encodes to it.
    Every word of the input with five different characters, one of them a
    pivot letter or a character up to ['p'], has its bitmap stored, at
    exactly one index, with the first word of the input that encodes to
    that bitmap, whichever of those words it is itself.  Inside one list
    the entries stand in the order in which their bitmaps were first
    seen. *)
Theorem first_seen_word_kept ws idx :
  build_index ws = Some idx ->
  (forall m, count_occ Z.eq_dec (word_bitmaps idx) m <= 1) /\
  (forall k, k < number_of_words idx ->
             first_with (bitmap_at idx k) ws = Some (word_at idx k)) /\
  (forall w m,
      In w ws -> admitted w m ->
      (exists c, In c (list_ascii_of_string w) /\
                 (In c letters \/ (char_code c <= char_code "p")%Z)) ->
      count_occ Z.eq_dec (word_bitmaps idx) m = 1 /\
      exists k, k < number_of_words idx /\
                bitmap_at idx k = m /\
                first_with m ws = Some (word_at idx k) /\
                (forall k', k' < number_of_words idx -> bitmap_at idx k' = m -> k' = k)) /\
  (forall index k1 k2,
      index < List.length letter_bitmaps ->
      nth index (word_bitmaps_boundaries idx) 0 <= k1 -> k1 < k2 ->
      k2 < nth (index + 1) (word_bitmaps_boundaries idx) 0 ->
      seen_before ws (bitmap_at idx k1) (bitmap_at idx k2)).
Proof.
  intros H. apply build_index_built in H. pose proof (ib_ok ws idx H) as OK.
  assert (Hocc : forall m, count_occ Z.eq_dec (word_bitmaps idx) m <= 1)
    by (apply NoDup_count_occ, (ib_nodup ws idx H)).
  split; [exact Hocc|]. split; [|split].
  - intros k Hk. now destruct (index_entry ws idx H k Hk) as (_ & ?).
  - intros w m Hw Ha Hc.
    assert (Hin : In m (word_bitmaps idx)).
    { apply (ib_members ws idx H). exists w. split; [exact Hw|]. split; [exact Ha|].
      destruct Ha as (_ & Hb & _). now apply (filed_when_pivot_or_low w m Hb). }
    split.
    + pose proof (Hocc m). apply (count_occ_In Z.eq_dec) in Hin. lia.
    + destruct (In_nth _ _ 0%Z Hin) as (k & Hk & Ek). fold (bitmap_at idx k) in Ek.
      rewrite <- (ok_count idx OK) in Hk.
      exists k. split; [exact Hk|]. split; [exact Ek|]. split.
      * rewrite <- Ek. now destruct (index_entry ws idx H k Hk) as (_ & ?).
      * intros k' Hk' Ek'.
        apply (proj1 (NoDup_nth (word_bitmaps idx) 0%Z) (ib_nodup ws idx H));
          rewrite <- ?(ok_count idx OK); try assumption.
        unfold bitmap_at in Ek, Ek'. congruence.
  - apply (ib_order ws idx H).
Qed.

(** On [dedup_words] the index holds vibex, shelf, waltz, fjord: the
    second "vibex" and "fjodr" are not stored, and "shelf" follows "vibex"
    in the list of e. *)
Lemma first_seen_word_kept_sample :
  unique_words dedup_index = ["vibex"; "shelf"; "waltz"; "fjord"]%string /\
  (count_occ Z.eq_dec (word_bitmaps dedup_index) 148008%Z = 1 /\
   exists k, k < number_of_words dedup_index /\
             bitmap_at dedup_index k = 148008%Z /\
             first_with 148008%Z dedup_words = Some (word_at dedup_index k) /\
             (forall k', k' < number_of_words dedup_index ->
                         bitmap_at dedup_index k' = 148008%Z -> k' = k)) /\
  first_with (bitmap_at dedup_index 0) dedup_words = Some "vibex"%string /\
  seen_before dedup_words (bitmap_at dedup_index 0) (bitmap_at dedup_index 1).
Proof.
  pose proof (first_seen_word_kept dedup_words dedup_index eq_refl)
    as (_ & Hfirst & Hstored & Horder).
  split; [reflexivity|]. split; [|split].
  - apply (Hstored "fjodr"%string 148008%Z).
    + simpl. tauto.
    + repeat split; reflexivity.
    + exists "o"%char. split; [simpl; tauto|]. left. simpl. tauto.
  - apply (Hfirst 0). vm_compute. lia.
  - apply (Horder 0 0 1).
    + simpl. lia.
    + vm_compute. lia.
    + lia.
    + vm_compute. lia.
Defined.
